(** * SumThreshold RFI flagging (tlpipe/rfi/sum_threshold.py)

    A shallow embedding of the class [SumThreshold] and the proofs of the
    properties its specification states.

    Modelling conventions.
    - A 2-D numpy array is a record holding its shape and its rows.
    - Samples and thresholds are exact rationals ([Q]); the Python code
      computes on floats, whose rounding is outside this model, and
      [sm / cnt] is the division of reals.
    - A method of the object is a computation in the monad [M]: it takes the
      object ([self]) and returns a result (a value or a raised exception)
      with the object as the call left it.  An integer index outside the
      array raises [IndexError]; a slice is clipped to the array.
    - [while] loops carry fuel; running out of it is the outcome
      [Raise OutOfFuel], so an [Ok] result is a result of the loop itself.
    - The variable of a Python [for] loop is an ordinary local variable:
      after the loop it holds the last value the loop gave it. *)

From Stdlib Require Import ZArith QArith Lia.
From stdpp Require Import base list numbers.

Local Open Scope nat_scope.

(** ** Arrays *)

Record ndarray (A : Type) := NDArray {
  height : nat;
  width : nat;
  rows : list (list A)
}.
Arguments NDArray {A} _ _ _.
Arguments height {A} _.
Arguments width {A} _.
Arguments rows {A} _.

(** The representation invariant: [height] rows of [width] cells. *)
Definition wf {A} (a : ndarray A) : Prop :=
  length (rows a) = height a ∧ Forall (λ r, length r = width a) (rows a).

(** [a.shape == b.shape] *)
Definition same_shape {A B} (a : ndarray A) (b : ndarray B) : Prop :=
  height a = height b ∧ width a = width b.

(** [a[y, x]] *)
Definition getitem {A} (a : ndarray A) (y x : nat) : option A :=
  rows a !! y ≫= (.!! x).

(** [a[y, x] = v] *)
Definition setitem {A} (a : ndarray A) (y x : nat) (v : A) : option (ndarray A) :=
  r ← rows a !! y;
  _ ← r !! x;
  Some (NDArray (height a) (width a) (<[y := <[x := v]> r]> (rows a))).

(** The cells [x0 <= x < x1] of a line set to [v]; the slice is clipped. *)
Definition fill_range {A} (x0 x1 : nat) (v : A) (r : list A) : list A :=
  imap (λ x c, if (x0 <=? x) && (x <? x1) then v else c) r.

(** [a[y, x0:x1] = v] *)
Definition setitem_hslice {A} (a : ndarray A) (y x0 x1 : nat) (v : A)
  : option (ndarray A) :=
  r ← rows a !! y;
  Some (NDArray (height a) (width a) (<[y := fill_range x0 x1 v r]> (rows a))).

(** [a[y0:y1, x] = v] *)
Definition setitem_vslice {A} (a : ndarray A) (y0 y1 x : nat) (v : A)
  : option (ndarray A) :=
  if x <? width a then
    Some (NDArray (height a) (width a)
            (imap (λ y r, if (y0 <=? y) && (y <? y1) then <[x := v]> r else r)
                  (rows a)))
  else None.

(** [a.T]; [d] fills the cells the rows of [a] lack, and there are none when
    [a] is well-formed. *)
Definition transpose {A} (d : A) (a : ndarray A) : ndarray A :=
  NDArray (width a) (height a)
    (map (λ x, map (λ y, default d (getitem a y x)) (seq 0 (height a)))
         (seq 0 (width a))).

(** ** Numbers *)

(** [a > b] on samples. *)
Definition Qgt_bool (a b : Q) : bool := negb (Qle_bool a b).

(** [xrange(n)] *)
Definition xrange (n : Z) : list nat := seq 0 (Z.to_nat n).

(** ** The object and the monad of its methods *)

(** The attributes of the object the methods use.  [lengths] and
    [thresholds] are the schedule the base class computes. *)
Record SumThreshold := Build_SumThreshold {
  vis : ndarray Q;
  vis_mask : ndarray bool;
  lengths : list Z;
  thresholds : list Q;
  min_connected : Z
}.

(** The object with another mask. *)
Definition with_mask (self : SumThreshold) (m : ndarray bool) : SumThreshold :=
  Build_SumThreshold (vis self) m (lengths self) (thresholds self)
                     (min_connected self).

(** The exceptions; [OutOfFuel] is the outcome of a loop of the model that
    is given too little fuel. *)
Inductive exn := IndexError | NotImplementedError | ConfigurationError | OutOfFuel.

Inductive result (A : Type) :=
| Ok (a : A)
| Raise (e : exn).
Arguments Ok {A} _.
Arguments Raise {A} _.

(** A computation on the object: a value or an exception, and the object as
    the computation leaves it. *)
Definition M (A : Type) : Type := SumThreshold → result A * SumThreshold.

Definition ret {A} (a : A) : M A := λ self, (Ok a, self).

Definition raise {A} (e : exn) : M A := λ self, (Raise e, self).

Definition bind {A B} (m : M A) (k : A → M B) : M B :=
  λ self,
    match m self with
    | (Ok a, self') => k a self'
    | (Raise e, self') => (Raise e, self')
    end.

Declare Scope py_scope.
Delimit Scope py_scope with py.
Notation "'let*' p ':=' m 'in' k" := (bind m (λ p, k))
  (at level 10, p pattern, m at level 100, k at level 200) : py_scope.
Notation "m ;;; k" := (bind m (λ _, k))
  (at level 100, right associativity) : py_scope.
Local Open Scope py_scope.

(** An array access: outside the array it raises [IndexError]. *)
Definition lift_option {A} (o : option A) : M A :=
  match o with Some a => ret a | None => raise IndexError end.

(** [for x in xs: a = body(x, a)] *)
Fixpoint for_in {A} (xs : list nat) (body : nat → A → M A) (a : A) : M A :=
  match xs with
  | [] => ret a
  | x :: xs' => let* a' := body x a in for_in xs' body a'
  end.

(** [while cond(a): a = body(a)] *)
Fixpoint while_ {A} (fuel : nat) (cond : A → bool) (body : A → M A) (a : A)
  : M A :=
  match fuel with
  | 0 => raise OutOfFuel
  | S fuel' =>
      if cond a then let* a' := body a in while_ fuel' cond body a' else ret a
  end.

(** [self.vis.shape] *)
Definition vis_shape : M (nat * nat) :=
  λ self, (Ok (height (vis self), width (vis self)), self).

(** [self.vis[y, x]] *)
Definition vis_at (y x : nat) : M Q :=
  λ self, lift_option (getitem (vis self) y x) self.

(** [self.vis_mask[y, x]] *)
Definition mask_at (y x : nat) : M bool :=
  λ self, lift_option (getitem (vis_mask self) y x) self.

(** [self.vis_mask[y, x] = True] *)
Definition mask_set_true (y x : nat) : M unit :=
  λ self,
    match setitem (vis_mask self) y x true with
    | Some m => (Ok tt, with_mask self m)
    | None => (Raise IndexError, self)
    end.

(** [self.vis_mask.copy()] *)
Definition mask_copy : M (ndarray bool) :=
  λ self, (Ok (vis_mask self), self).

(** [self.vis_mask[:] = tmp_mask], for a [tmp_mask] of the mask's shape. *)
Definition mask_assign (tmp_mask : ndarray bool) : M unit :=
  λ self, (Ok tt, with_mask self tmp_mask).

(** ** The methods *)

(** The [length == 1] branch, the same in both methods. *)
Definition flag_sample (threshold : Q) (y x : nat) : M unit :=
  let* masked := mask_at y x in
  if negb masked then
    let* v := vis_at y x in
    if Qgt_bool v threshold then mask_set_true y x else ret tt
  else ret tt.

Definition single_sample_pass (height width : nat) (threshold : Q) : M unit :=
  for_in (xrange (Z.of_nat height)) (λ y _,
    for_in (xrange (Z.of_nat width)) (λ x _, flag_sample threshold y x) tt) tt.

(** [if not self.vis_mask[y, x]: sm += self.vis[y, x]; cnt += 1] *)
Definition add_sample (y x : nat) (sm : Q) (cnt : Z) : M (Q * Z) :=
  let* masked := mask_at y x in
  if negb masked then let* v := vis_at y x in ret ((sm + v)%Q, (cnt + 1)%Z)
  else ret (sm, cnt).

(** [if not self.vis_mask[y, x]: sm -= self.vis[y, x]; cnt -= 1] *)
Definition sub_sample (y x : nat) (sm : Q) (cnt : Z) : M (Q * Z) :=
  let* masked := mask_at y x in
  if negb masked then let* v := vis_at y x in ret ((sm - v)%Q, (cnt - 1)%Z)
  else ret (sm, cnt).

(** [(cnt > 0) and (sm / cnt > threshold)] *)
Definition exceeds (sm : Q) (cnt : Z) (threshold : Q) : bool :=
  (0 <? cnt)%Z && Qgt_bool (sm / inject_Z cnt)%Q threshold.

(** The local variables of a line scan: [sm, cnt, left, right] in
    [horizontal_sum_threshold], [sm, cnt, top, bottom] in
    [vertical_sum_threshold], and the pending mask. *)
Definition locals : Type := Q * Z * nat * nat * ndarray bool.

(** *** [horizontal_sum_threshold] *)

(** [left] and [right] are constructors in Rocq; the variables of these
    names are written [left_] and [right_]. *)

(** [for right in xrange(length-1): ...]; a Python loop variable keeps the
    last value it was given when the loop ends. *)
Definition h_prime (y : nat) (length : Z) (sm : Q) (cnt : Z) (right_ : nat)
  : M (Q * Z * nat) :=
  for_in (xrange (length - 1)) (λ right_ '(sm, cnt, _),
    let* (sm, cnt) := add_sample y right_ sm cnt in
    ret (sm, cnt, right_)) (sm, cnt, right_).

(** The body of [while(right < width)]. *)
Definition h_slide (y : nat) (length : Z) (threshold : Q) (l : locals)
  : M locals :=
  let '(sm, cnt, left_, right_, tmp_mask) := l in
  let* (sm, cnt) := add_sample y right_ sm cnt in
  let* tmp_mask :=
    (if exceeds sm cnt threshold
     then lift_option
            (setitem_hslice tmp_mask y left_ (left_ + Z.to_nat length) true)
     else ret tmp_mask) in
  let* (sm, cnt) := sub_sample y left_ sm cnt in
  ret (sm, cnt, left_ + 1, right_ + 1, tmp_mask).

(** The body of [for y in xrange(height)]. *)
Definition h_line (width : nat) (length : Z) (threshold : Q) (y : nat)
  (tmp_mask : ndarray bool) : M (ndarray bool) :=
  let '(sm, cnt, left_, right_) := (0%Q, 0%Z, 0, 0) in
  let* (sm, cnt, right_) := h_prime y length sm cnt right_ in
  let* (_, _, _, _, tmp_mask) :=
    while_ (S width) (λ '(_, _, _, right_, _), right_ <? width)
           (h_slide y length threshold) (sm, cnt, left_, right_, tmp_mask) in
  ret tmp_mask.

Definition h_lines (height width : nat) (length : Z) (threshold : Q)
  (tmp_mask : ndarray bool) : M (ndarray bool) :=
  for_in (xrange (Z.of_nat height)) (h_line width length threshold) tmp_mask.

Definition horizontal_sum_threshold (length : Z) (threshold : Q) : M unit :=
  let* (height, width) := vis_shape in
  if (Z.of_nat width <? length)%Z then ret tt
  else if (length =? 1)%Z then single_sample_pass height width threshold
  else if (1 <? length)%Z then
    let* tmp_mask := mask_copy in
    let* tmp_mask := h_lines height width length threshold tmp_mask in
    mask_assign tmp_mask
  else ret tt.

(** *** [vertical_sum_threshold] *)

Definition v_prime (x : nat) (length : Z) (sm : Q) (cnt : Z) (bottom : nat)
  : M (Q * Z * nat) :=
  for_in (xrange (length - 1)) (λ bottom '(sm, cnt, _),
    let* (sm, cnt) := add_sample bottom x sm cnt in
    ret (sm, cnt, bottom)) (sm, cnt, bottom).

Definition v_slide (x : nat) (length : Z) (threshold : Q) (l : locals)
  : M locals :=
  let '(sm, cnt, top, bottom, tmp_mask) := l in
  let* (sm, cnt) := add_sample bottom x sm cnt in
  let* tmp_mask :=
    (if exceeds sm cnt threshold
     then lift_option
            (setitem_vslice tmp_mask top (top + Z.to_nat length) x true)
     else ret tmp_mask) in
  let* (sm, cnt) := sub_sample top x sm cnt in
  ret (sm, cnt, top + 1, bottom + 1, tmp_mask).

Definition v_line (height : nat) (length : Z) (threshold : Q) (x : nat)
  (tmp_mask : ndarray bool) : M (ndarray bool) :=
  let '(sm, cnt, top, bottom) := (0%Q, 0%Z, 0, 0) in
  let* (sm, cnt, bottom) := v_prime x length sm cnt bottom in
  let* (_, _, _, _, tmp_mask) :=
    while_ (S height) (λ '(_, _, _, bottom, _), bottom <? height)
           (v_slide x length threshold) (sm, cnt, top, bottom, tmp_mask) in
  ret tmp_mask.

Definition v_lines (height width : nat) (length : Z) (threshold : Q)
  (tmp_mask : ndarray bool) : M (ndarray bool) :=
  for_in (xrange (Z.of_nat width)) (v_line height length threshold) tmp_mask.

Definition vertical_sum_threshold (length : Z) (threshold : Q) : M unit :=
  let* (height, width) := vis_shape in
  if (Z.of_nat height <? length)%Z then ret tt
  else if (length =? 1)%Z then single_sample_pass height width threshold
  else if (1 <? length)%Z then
    let* tmp_mask := mask_copy in
    let* tmp_mask := v_lines height width length threshold tmp_mask in
    mask_assign tmp_mask
  else ret tt.

(** *** [execute_threshold] *)

(** [for length, threshold in zip(self.lengths, self.thresholds): ...] *)
Fixpoint zip_passes (factor : Q) (ls : list Z) (ts : list Q) : M unit :=
  match ls, ts with
  | length :: ls', threshold :: ts' =>
      horizontal_sum_threshold length (factor * threshold)%Q ;;;
      vertical_sum_threshold length (factor * threshold)%Q ;;;
      zip_passes factor ls' ts'
  | _, _ => ret tt
  end.

Definition execute_threshold (factor : Q) : M unit :=
  λ self, zip_passes factor (lengths self) (thresholds self) self.

(** *** [__init__] and [execute] *)

(** Modelled from the spec: the base class [CombinatorialThreshold]
    (combinatorial_threshold.py) is not among the sources.  Its [__init__]
    stores the visibility array, the mask and the schedule it derives from
    the configuration; the schedule is taken here as it was derived. *)
Definition CombinatorialThreshold_init (time_freq_vis : ndarray Q)
  (time_freq_vis_mask : ndarray bool) (schedule_lengths : list Z)
  (schedule_thresholds : list Q) : SumThreshold :=
  Build_SumThreshold time_freq_vis time_freq_vis_mask schedule_lengths
                     schedule_thresholds 1.

(** Modelled from the spec: [CombinatorialThreshold.execute] fails with a
    configuration error on a sensitivity that is not positive, and
    otherwise runs the threshold passes scaled by the sensitivity. *)
Definition CombinatorialThreshold_execute (sensitivity : Q) : M unit :=
  if Qle_bool sensitivity 0 then raise ConfigurationError
  else execute_threshold sensitivity.

(** [SumThreshold.__init__] *)
Definition init (time_freq_vis : ndarray Q) (time_freq_vis_mask : ndarray bool)
  (schedule_lengths : list Z) (schedule_thresholds : list Q)
  (min_connected : Z) : SumThreshold :=
  let self := CombinatorialThreshold_init time_freq_vis time_freq_vis_mask
                schedule_lengths schedule_thresholds in
  Build_SumThreshold (vis self) (vis_mask self) (lengths self)
                     (thresholds self) (Z.max 1 min_connected).

(** [SumThreshold.execute] *)
Definition execute (sensitivity : Q) : M unit :=
  CombinatorialThreshold_execute sensitivity ;;;
  (λ self,
     if (1 <? min_connected self)%Z then raise NotImplementedError self
     else ret tt self).

(** ** Lines and axes *)

(** Line [y] of an array, and the array with a line replaced. *)
Definition row {A} (a : ndarray A) (y : nat) : list A :=
  default [] (rows a !! y).

(** [a] with row [y] replaced by [r]. *)
Definition set_row {A} (a : ndarray A) (y : nat) (r : list A) : ndarray A :=
  NDArray (height a) (width a) (<[y := r]> (rows a)).

(** Column [x] of an array, and the array with a column replaced. *)
Definition col {A} (d : A) (a : ndarray A) (x : nat) : list A :=
  map (λ r, default d (r !! x)) (rows a).

Definition set_col {A} (a : ndarray A) (x : nat) (c : list A) : ndarray A :=
  NDArray (height a) (width a) (zip_with (λ r v, <[x := v]> r) (rows a) c).

(** The cell at [(y, x)], [d] outside the array. *)
Definition cell {A} (d : A) (a : ndarray A) (y x : nat) : A :=
  default d (getitem a y x).

(** The axis along which a line runs. *)
Inductive axis := Horizontal | Vertical.

(** [horizontal_sum_threshold] scans rows, [vertical_sum_threshold]
    columns. *)
Definition sum_threshold_pass (ax : axis) : Z → Q → M unit :=
  match ax with
  | Horizontal => horizontal_sum_threshold
  | Vertical => vertical_sum_threshold
  end.

(** The loop over the lines of a pass with [length > 1]. *)
Definition scan_lines (ax : axis) (height width : nat)
  : Z → Q → ndarray bool → M (ndarray bool) :=
  match ax with
  | Horizontal => h_lines height width
  | Vertical => v_lines height width
  end.

(** The extent of a line along the scanned axis. *)
Definition extent {A} (ax : axis) (a : ndarray A) : nat :=
  match ax with Horizontal => width a | Vertical => height a end.

(** The number of lines across the axis. *)
Definition line_count {A} (ax : axis) (a : ndarray A) : nat :=
  match ax with Horizontal => height a | Vertical => width a end.

(** Line [i] along the axis. *)
Definition line {A} (d : A) (ax : axis) (a : ndarray A) (i : nat) : list A :=
  match ax with Horizontal => row a i | Vertical => col d a i end.

(** The object with its two arrays transposed. *)
Definition transpose_self (s : SumThreshold) : SumThreshold :=
  Build_SumThreshold (transpose 0%Q (vis s)) (transpose false (vis_mask s))
                     (lengths s) (thresholds s) (min_connected s).

(** ** Sequences of calls *)

(** A call of one of the three methods that set flags. *)
Inductive call :=
| CallHorizontal (length : Z) (threshold : Q)
| CallVertical (length : Z) (threshold : Q)
| CallExecuteThreshold (factor : Q).

Definition run_call (c : call) : M unit :=
  match c with
  | CallHorizontal length threshold => horizontal_sum_threshold length threshold
  | CallVertical length threshold => vertical_sum_threshold length threshold
  | CallExecuteThreshold factor => execute_threshold factor
  end.

Fixpoint run_calls (cs : list call) : M unit :=
  match cs with
  | [] => ret tt
  | c :: cs' => run_call c ;;; run_calls cs'
  end.

(** ** Invariants and relations of the proofs *)

(** [m'] holds every flag of [m]. *)
Definition mask_le (m m' : ndarray bool) : Prop :=
  ∀ y x, getitem m y x = Some true → getitem m' y x = Some true.

(** The arrays of the object are rectangular and have one shape. *)
Definition wf_self (s : SumThreshold) : Prop :=
  wf (vis s) ∧ wf (vis_mask s) ∧ same_shape (vis_mask s) (vis s).

(** The same object up to its mask. *)
Definition same_but_mask (s s' : SumThreshold) : Prop :=
  vis s' = vis s ∧ lengths s' = lengths s ∧ thresholds s' = thresholds s
  ∧ min_connected s' = min_connected s.

(** What a call may change of the object: flags are added to the mask, and
    nothing else changes. *)
Definition evolves (s s' : SumThreshold) : Prop :=
  vis s' = vis s ∧ lengths s' = lengths s ∧ thresholds s' = thresholds s
  ∧ min_connected s' = min_connected s
  ∧ mask_le (vis_mask s) (vis_mask s').

(** The pending mask of the loop grows. *)
Definition pending_le (l l' : locals) : Prop := mask_le l.2 l'.2.

(** A relation between the object before and after a computation. *)
Definition stable {A} (R : relation SumThreshold) (m : M A) : Prop :=
  ∀ s, R s (m s).2.

(** A computation that leaves the object as it found it. *)
Definition readonly {A} (m : M A) : Prop := stable eq m.

(** A relation between the argument and the value of a loop body. *)
Definition relates {A} (R : relation A) (f : A → M A) : Prop :=
  ∀ a s a' s', f a s = (Ok a', s') → R a a'.

(** A pass on a well-formed object returns, and leaves it well-formed. *)
Definition returns_wf (m : M unit) : Prop :=
  ∀ s, wf_self s →
       ∃ s', m s = (Ok tt, s') ∧ wf_self s' ∧ same_but_mask s s'.

(** The sample at [(y, x)] exceeds the threshold. *)
Definition above (threshold : Q) (s : SumThreshold) (y x : nat) : bool :=
  Qgt_bool (cell 0%Q (vis s) y x) threshold.

(** The mask of [s'] is the mask of [s] with the samples of [d] that exceed
    the threshold flagged. *)
Definition flagged_on (d : nat → nat → bool) (threshold : Q)
  (s s' : SumThreshold) : Prop :=
  wf_self s' ∧ same_but_mask s s'
  ∧ ∀ y x, getitem (vis_mask s') y x
           = (λ b, b || (d y x && above threshold s y x))
             <$> getitem (vis_mask s) y x.

(** Every sample above the threshold is flagged. *)
Definition covered (threshold : Q) (s : SumThreshold) : Prop :=
  ∀ y x, above threshold s y x = true →
         getitem (vis_mask s) y x = Some false → False.

(** The single-sample entries of the schedule have flagged all they can. *)
Fixpoint all_covered (factor : Q) (ls : list Z) (ts : list Q)
  (s : SumThreshold) : Prop :=
  match ls, ts with
  | length :: ls', threshold :: ts' =>
      (length = 1%Z → covered (factor * threshold)%Q s)
      ∧ all_covered factor ls' ts' s
  | _, _ => True
  end.

(** ** A line scan on the line alone

    The scan of one line as [h_line] and [v_line] perform it, on the samples
    [vl] and the snapshot flags [ml] of the line and its pending flags.  The
    passes are proved below to be this scan on every row or column. *)

Section LineScan.
Variables (vl : list Q) (ml : list bool) (length : Z) (threshold : Q).

Definition line_add (i : nat) (acc : Q * Z) : Q * Z :=
  if negb (default false (ml !! i))
  then ((acc.1 + default 0%Q (vl !! i))%Q, (acc.2 + 1)%Z)
  else acc.

Definition line_sub (i : nat) (acc : Q * Z) : Q * Z :=
  if negb (default false (ml !! i))
  then ((acc.1 - default 0%Q (vl !! i))%Q, (acc.2 - 1)%Z)
  else acc.

Fixpoint line_prime (ix : list nat) (acc : Q * Z) (hi : nat) : Q * Z * nat :=
  match ix with
  | [] => (acc, hi)
  | i :: ix' => line_prime ix' (line_add i acc) i
  end.

Definition line_step (st : Q * Z * nat * nat * list bool)
  : Q * Z * nat * nat * list bool :=
  let '(acc, lo, hi, pend) := st in
  let acc := line_add hi acc in
  let pend :=
    if exceeds acc.1 acc.2 threshold
    then fill_range lo (lo + Z.to_nat length) true pend else pend in
  (line_sub lo acc, lo + 1, hi + 1, pend).

Fixpoint line_slide (fuel : nat) (st : Q * Z * nat * nat * list bool)
  : Q * Z * nat * nat * list bool :=
  match fuel with
  | 0 => st
  | S fuel' =>
      if st.1.2 <? List.length vl then line_slide fuel' (line_step st)
      else st
  end.

Definition scan_line (pend : list bool) : list bool :=
  let '(acc, hi) := line_prime (xrange (length - 1)) (0%Q, 0%Z) 0 in
  (line_slide (S (List.length vl)) (acc, 0, hi, pend)).2.
End LineScan.

(** The pending mask after the rows [ys] are scanned. *)
Definition h_scan (s : SumThreshold) (length : Z) (threshold : Q)
  (ys : list nat) (tmp : ndarray bool) : ndarray bool :=
  foldl (λ tmp y,
           set_row tmp y
             (scan_line (row (vis s) y) (row (vis_mask s) y) length threshold
                        (row tmp y))) tmp ys.

(** The pending mask after the columns [xs] are scanned. *)
Definition v_scan (s : SumThreshold) (length : Z) (threshold : Q)
  (xs : list nat) (tmp : ndarray bool) : ndarray bool :=
  foldl (λ tmp x,
           set_col tmp x
             (scan_line (col 0%Q (vis s) x) (col false (vis_mask s) x) length
                        threshold (col false tmp x))) tmp xs.

(** ** The windows of the specification *)

(** The sum and the number of the unflagged samples of the window
    [[left_, left_ + length)] of a line. *)
Definition window_sum (vl : list Q) (ml : list bool) (left_ length : nat) : Q :=
  foldr Qplus 0%Q
    (map (λ i, if default true (ml !! i) then 0%Q else default 0%Q (vl !! i))
         (seq left_ length)).

(** The number of unflagged samples of the window. *)
Definition window_count (ml : list bool) (left_ length : nat) : Z :=
  Z.of_nat (List.length
              (filter (λ i, default true (ml !! i) = false) (seq left_ length))).

(** The window lies inside the line and its unflagged mean exceeds the
    threshold. *)
Definition window_exceeds (vl : list Q) (ml : list bool) (left_ length : nat)
  (threshold : Q) : bool :=
  (left_ + length <=? List.length vl)
  && exceeds (window_sum vl ml left_ length) (window_count ml left_ length)
             threshold.

(** The windows [horizontal_sum_threshold] tests on row [y]: the left edge,
    and the running sum and count as they are tested. *)
Fixpoint h_tested (fuel width y : nat) (length : Z) (threshold : Q)
  (l : locals) : M (list (nat * Q * Z)) :=
  match fuel with
  | 0 => raise OutOfFuel
  | S fuel' =>
      let '(sm, cnt, left_, right_, _) := l in
      if right_ <? width then
        let* (sm', cnt') := add_sample y right_ sm cnt in
        let* l' := h_slide y length threshold l in
        let* rest := h_tested fuel' width y length threshold l' in
        ret ((left_, sm', cnt') :: rest)
      else ret []
  end.

(** The tests of [h_line] on row [y], from the first. *)
Definition h_line_tested (width : nat) (length : Z) (threshold : Q) (y : nat)
  : M (list (nat * Q * Z)) :=
  let* tmp_mask := mask_copy in
  let* (sm, cnt, right_) := h_prime y length 0%Q 0%Z 0 in
  h_tested (S width) width y length threshold (sm, cnt, 0, right_, tmp_mask).

(** ** The windows the code tests *)

(** The running sum and count that [horizontal_sum_threshold] and
    [vertical_sum_threshold] hold when they test the window with left edge
    [k]: those of the unflagged samples of [[k, k + length - 1)], and those
    of the sample at [length - 2] a second time. *)
Definition tested_sum (vl : list Q) (ml : list bool) (length : Z) (k : nat)
  : Q :=
  (window_sum vl ml k (Z.to_nat (length - 1))
   + window_sum vl ml (Z.to_nat (length - 2)) 1)%Q.

Definition tested_count (ml : list bool) (length : Z) (k : nat) : Z :=
  (window_count ml k (Z.to_nat (length - 1))
   + window_count ml (Z.to_nat (length - 2)) 1)%Z.

(** The test [(cnt > 0) and (sm / cnt > threshold)] at left edge [k]. *)
Definition test_exceeds (vl : list Q) (ml : list bool) (length : Z)
  (threshold : Q) (k : nat) : bool :=
  exceeds (tested_sum vl ml length k) (tested_count ml length k) threshold.



(** ** Inputs of the examples *)

(** An array of one row. *)
Definition row_array {A} (r : list A) : ndarray A := NDArray 1 (length r) [r].

(** An object with a given schedule and [min_connected = 1]. *)
Definition detector (v : ndarray Q) (m : ndarray bool) (ls : list Z)
  (ts : list Q) : SumThreshold := Build_SumThreshold v m ls ts 1.

(** The row of the scenarios of the specification, without flags. *)
Definition scenario_vis : ndarray Q :=
  row_array [1%Q; 1%Q; 1%Q; 1%Q; 9%Q; 1%Q; 1%Q; 1%Q].

(** No flags. *)
Definition scenario_mask : ndarray bool := row_array (replicate 8 false).

Definition scenario : SumThreshold :=
  detector scenario_vis scenario_mask [] [].

(** The same row with index 1 flagged beforehand. *)
Definition preflagged : SumThreshold :=
  detector scenario_vis
    (row_array [false; true; false; false; false; false; false; false])
    [1%Z; 2%Z] [5%Q; 3%Q].

(** The same, with a schedule of single-sample and skipped passes. *)
Definition preflagged_single : SumThreshold :=
  detector scenario_vis
    (row_array [false; true; false; false; false; false; false; false])
    [1%Z; 1%Z; 0%Z] [5%Q; (1 # 2)%Q; 3%Q].

(** A row of two samples. *)
Definition two_samples : SumThreshold :=
  detector (row_array [1%Q; 2%Q]) (row_array [false; false]) [] [].

(** A row whose first sample is the outlier. *)
Definition outlier_first : SumThreshold :=
  detector (row_array [7%Q; 0%Q; 0%Q]) (row_array [false; false; false]) [] [].

(** A row and a schedule on which a second run flags more than the first. *)
Definition rerun : SumThreshold :=
  detector (row_array [0%Q; 0%Q; 13%Q; 0%Q; 0%Q; 5%Q])
           (row_array (replicate 6 false)) [3%Z] [4%Q].

(** Two objects that agree on row 0 and on nothing else. *)
Definition two_rows : SumThreshold :=
  detector (NDArray 2 3 [[1%Q; 9%Q; 1%Q]; [0%Q; 0%Q; 0%Q]])
           (NDArray 2 3 [[false; false; false]; [false; false; false]]) [] [].

Definition two_rows' : SumThreshold :=
  detector (NDArray 2 3 [[1%Q; 9%Q; 1%Q]; [8%Q; 8%Q; 8%Q]])
           (NDArray 2 3 [[false; false; false]; [true; false; false]]) [] [].

(** ** Reasoning rules of the monad *)

Section Rules.
Context {A B : Type}.

Lemma bind_Ok (m : M A) (k : A → M B) s a s' :
  m s = (Ok a, s') → bind m k s = k a s'.
Proof. intros H. unfold bind. by rewrite H. Qed.

Lemma bind_Raise (m : M A) (k : A → M B) s e s' :
  m s = (Raise e, s') → bind m k s = (Raise e, s').
Proof. intros H. unfold bind. by rewrite H. Qed.

Lemma bind_inv_Ok (m : M A) (k : A → M B) s b s' :
  bind m k s = (Ok b, s') → ∃ a s1, m s = (Ok a, s1) ∧ k a s1 = (Ok b, s').
Proof.
  unfold bind. destruct (m s) as [[a|e] s1]; [eauto | discriminate].
Qed.
End Rules.

Section Stable.
Variable R : relation SumThreshold.
Context `{!PreOrder R}.

Lemma stable_ret {A} (a : A) : stable R (ret a).
Proof. intros s. simpl. reflexivity. Qed.

Lemma stable_raise {A} e : stable R (@raise A e).
Proof. intros s. simpl. reflexivity. Qed.

Lemma stable_lift_option {A} (o : option A) : stable R (lift_option o).
Proof. destruct o; [apply stable_ret | apply stable_raise]. Qed.

Lemma stable_bind {A B} (m : M A) (k : A → M B) :
  stable R m → (∀ a, stable R (k a)) → stable R (bind m k).
Proof.
  intros Hm Hk s. unfold bind. specialize (Hm s).
  destruct (m s) as [[a|e] s1]; simpl in *; [|done].
  etrans; [exact Hm | apply Hk].
Qed.

Lemma stable_for_in {A} xs (body : nat → A → M A) a :
  (∀ x a, stable R (body x a)) → stable R (for_in xs body a).
Proof.
  intros Hb. revert a. induction xs as [|x xs IH]; intros a; simpl.
  - apply stable_ret.
  - apply stable_bind; auto.
Qed.

Lemma stable_while {A} fuel cond (body : A → M A) a :
  (∀ a, stable R (body a)) → stable R (while_ fuel cond body a).
Proof.
  intros Hb. revert a. induction fuel as [|n IH]; intros a; simpl.
  - apply stable_raise.
  - destruct (cond a); [apply stable_bind; auto | apply stable_ret].
Qed.
End Stable.

Section Relates.
Context {A : Type} (R : relation A).
Context `{!PreOrder R}.

Lemma relates_for_in xs (body : nat → A → M A) :
  (∀ x, relates R (body x)) → relates R (for_in xs body).
Proof.
  intros Hb. induction xs as [|x xs IH]; intros a s a' s' H; simpl in H.
  - inversion H. reflexivity.
  - apply bind_inv_Ok in H as (a1 & s1 & H1 & H2).
    etrans; [eapply Hb, H1 | eapply IH, H2].
Qed.

Lemma relates_while fuel cond (body : A → M A) :
  relates R body → relates R (while_ fuel cond body).
Proof.
  intros Hb. induction fuel as [|n IH]; intros a s a' s' H; simpl in H.
  - discriminate.
  - destruct (cond a).
    + apply bind_inv_Ok in H as (a1 & s1 & H1 & H2).
      etrans; [eapply Hb, H1 | eapply IH, H2].
    + inversion H. reflexivity.
Qed.
End Relates.

(** ** Arrays: reads after writes *)

Section ArrayFacts.
Context {A : Type}.
Implicit Types (a : ndarray A) (r : list A).

Lemma fill_range_lookup x0 x1 (v : A) r x :
  fill_range x0 x1 v r !! x
  = (λ c, if (x0 <=? x) && (x <? x1) then v else c) <$> r !! x.
Proof. unfold fill_range. by rewrite list_lookup_imap. Qed.

Lemma fill_range_length x0 x1 (v : A) r :
  length (fill_range x0 x1 v r) = length r.
Proof. unfold fill_range. by rewrite length_imap. Qed.

Lemma getitem_Some a y x v :
  getitem a y x = Some v ↔ ∃ r, rows a !! y = Some r ∧ r !! x = Some v.
Proof.
  unfold getitem. destruct (rows a !! y) as [r|]; simpl; split.
  - eauto.
  - by intros (r' & [= <-] & ?).
  - done.
  - by intros (r' & ? & ?).
Qed.

Lemma getitem_in_range a y x :
  wf a → y < height a → x < width a → is_Some (getitem a y x).
Proof.
  intros [Hh Hw] Hy Hx. unfold getitem.
  destruct (lookup_lt_is_Some_2 (rows a) y) as [r Hr]; [lia|].
  rewrite Hr. simpl. apply lookup_lt_is_Some_2.
  rewrite Forall_lookup in Hw. rewrite (Hw _ _ Hr). done.
Qed.

Lemma getitem_range a y x v :
  wf a → getitem a y x = Some v → y < height a ∧ x < width a.
Proof.
  intros [Hh Hw] (r & Hr & Hx)%getitem_Some.
  rewrite Forall_lookup in Hw. rewrite <- Hh, <- (Hw _ _ Hr).
  split; [by eapply lookup_lt_Some | by eapply lookup_lt_Some].
Qed.

Lemma getitem_setitem a y x v a' y' x' :
  setitem a y x v = Some a' →
  getitem a' y' x'
  = if decide (y' = y ∧ x' = x) then Some v else getitem a y' x'.
Proof.
  unfold setitem, getitem. intros H.
  destruct (rows a !! y) as [r|] eqn:Hr; simpl in H; [|done].
  destruct (r !! x) as [c|] eqn:Hc; simpl in H; [|done].
  injection H as <-. simpl.
  destruct (decide (y' = y)) as [->|Hy].
  - rewrite list_lookup_insert_eq by (by eapply lookup_lt_Some). simpl.
    destruct (decide (x' = x)) as [->|Hx].
    + rewrite list_lookup_insert_eq by (by eapply lookup_lt_Some).
      by rewrite decide_True.
    + rewrite list_lookup_insert_ne by done.
      rewrite decide_False by (by intros [_ ?]). by rewrite Hr.
  - rewrite list_lookup_insert_ne by done.
    by rewrite decide_False by (by intros [? _]).
Qed.

Lemma getitem_setitem_hslice a y x0 x1 v a' y' x' :
  setitem_hslice a y x0 x1 v = Some a' →
  getitem a' y' x'
  = (λ c, if bool_decide (y' = y) && (x0 <=? x') && (x' <? x1)
          then v else c) <$> getitem a y' x'.
Proof.
  unfold setitem_hslice, getitem. intros H.
  destruct (rows a !! y) as [r|] eqn:Hr; simpl in H; [|done].
  injection H as <-. simpl.
  destruct (decide (y' = y)) as [->|Hy].
  - rewrite list_lookup_insert_eq by (by eapply lookup_lt_Some). simpl.
    rewrite Hr. simpl. rewrite fill_range_lookup.
    by rewrite bool_decide_eq_true_2.
  - rewrite list_lookup_insert_ne by done.
    rewrite bool_decide_eq_false_2 by done. simpl.
    destruct (rows a !! y') as [r'|]; simpl; [|done].
    by destruct (r' !! x').
Qed.

Lemma getitem_setitem_vslice a y0 y1 x v a' y' x' :
  setitem_vslice a y0 y1 x v = Some a' →
  getitem a' y' x'
  = (λ c, if bool_decide (x' = x) && (y0 <=? y') && (y' <? y1)
          then v else c) <$> getitem a y' x'.
Proof.
  unfold setitem_vslice, getitem. intros H.
  destruct (x <? width a); [|done]. injection H as <-. simpl.
  rewrite list_lookup_imap.
  destruct (rows a !! y') as [r'|]; simpl; [|done].
  destruct ((y0 <=? y') && (y' <? y1)) eqn:Hy.
  - destruct (decide (x' = x)) as [->|Hx].
    + rewrite bool_decide_eq_true_2 by done. simpl.
      apply andb_true_iff in Hy as [-> ->]. simpl.
      destruct (r' !! x) as [c|] eqn:Hc; simpl.
      * by rewrite list_lookup_insert_eq by (by eapply lookup_lt_Some).
      * rewrite list_insert_ge; [done|]. by apply lookup_ge_None.
    + rewrite list_lookup_insert_ne by done.
      rewrite bool_decide_eq_false_2 by done. simpl.
      by destruct (r' !! x').
  - destruct (r' !! x') as [c|]; simpl; [|done].
    destruct (bool_decide (x' = x)); simpl; [|done].
    destruct (y0 <=? y'); simpl in *; [by rewrite Hy | done].
Qed.
End ArrayFacts.

#[local] Instance mask_le_preorder : PreOrder mask_le.
Proof.
  split.
  - by intros m y x.
  - intros m1 m2 m3 H12 H23 y x H. by apply H23, H12.
Qed.

Lemma mask_le_setitem m y x m' :
  setitem m y x true = Some m' → mask_le m m'.
Proof.
  intros H y' x' Ht. rewrite (getitem_setitem _ _ _ _ _ _ _ H).
  by case_decide.
Qed.

Lemma mask_le_hslice m y x0 x1 m' :
  setitem_hslice m y x0 x1 true = Some m' → mask_le m m'.
Proof.
  intros H y' x' Ht. rewrite (getitem_setitem_hslice _ _ _ _ _ _ _ _ H), Ht.
  simpl. by destruct (_ && _).
Qed.

Lemma mask_le_vslice m y0 y1 x m' :
  setitem_vslice m y0 y1 x true = Some m' → mask_le m m'.
Proof.
  intros H y' x' Ht. rewrite (getitem_setitem_vslice _ _ _ _ _ _ _ _ H), Ht.
  simpl. by destruct (_ && _).
Qed.

(** ** The mask only grows *)

#[local] Instance evolves_preorder : PreOrder evolves.
Proof.
  split.
  - intros s. by repeat split.
  - intros s1 s2 s3 (?&?&?&?&?) (?&?&?&?&?).
    repeat split; try congruence. by etrans.
Qed.

#[local] Instance pending_le_preorder : PreOrder pending_le.
Proof.
  split.
  - intros l. unfold pending_le. reflexivity.
  - intros l1 l2 l3. unfold pending_le. intros. by etrans.
Qed.

Lemma evolves_ret {A} (a : A) : stable evolves (ret a).
Proof. apply stable_ret. exact _. Qed.

Lemma evolves_bind {A B} (m : M A) (k : A → M B) :
  stable evolves m → (∀ a, stable evolves (k a)) → stable evolves (bind m k).
Proof. apply stable_bind. exact _. Qed.

Lemma evolves_for_in {A} xs (body : nat → A → M A) a :
  (∀ x a, stable evolves (body x a)) → stable evolves (for_in xs body a).
Proof. apply stable_for_in. exact _. Qed.

Lemma evolves_lift_option {A} (o : option A) : stable evolves (lift_option o).
Proof. apply stable_lift_option. exact _. Qed.

Lemma evolves_vis_at y x : stable evolves (vis_at y x).
Proof. intros s. unfold vis_at. apply evolves_lift_option. Qed.

Lemma evolves_mask_at y x : stable evolves (mask_at y x).
Proof. intros s. unfold mask_at. apply evolves_lift_option. Qed.

Lemma evolves_mask_set_true y x : stable evolves (mask_set_true y x).
Proof.
  intros s. unfold mask_set_true.
  destruct (setitem (vis_mask s) y x true) as [m|] eqn:Hm; simpl.
  - repeat split. by eapply mask_le_setitem.
  - reflexivity.
Qed.

Lemma evolves_flag_sample threshold y x :
  stable evolves (flag_sample threshold y x).
Proof.
  unfold flag_sample. apply evolves_bind; [apply evolves_mask_at |].
  intros masked. destruct (negb masked); [|apply evolves_ret].
  apply evolves_bind; [apply evolves_vis_at |].
  intros v. destruct (Qgt_bool v threshold);
    [apply evolves_mask_set_true | apply evolves_ret].
Qed.

Lemma evolves_single_sample_pass h w threshold :
  stable evolves (single_sample_pass h w threshold).
Proof.
  unfold single_sample_pass.
  apply evolves_for_in. intros y [].
  apply evolves_for_in. intros x [].
  apply evolves_flag_sample.
Qed.

Lemma h_slide_grows y length threshold :
  relates pending_le (h_slide y length threshold).
Proof.
  intros [[[[sm cnt] lo] hi] tmp] s l' s' H. unfold h_slide in H.
  apply bind_inv_Ok in H as ([sm1 cnt1] & s1 & _ & H).
  apply bind_inv_Ok in H as (tmp1 & s2 & Ht & H).
  apply bind_inv_Ok in H as ([sm2 cnt2] & s3 & _ & H).
  inversion H; subst. unfold pending_le. simpl.
  destruct (exceeds sm1 cnt1 threshold).
  - destruct (setitem_hslice _ _ _ _ _) as [m|] eqn:Hm; [|done].
    inversion Ht; subst. by eapply mask_le_hslice.
  - inversion Ht. reflexivity.
Qed.

Lemma v_slide_grows x length threshold :
  relates pending_le (v_slide x length threshold).
Proof.
  intros [[[[sm cnt] lo] hi] tmp] s l' s' H. unfold v_slide in H.
  apply bind_inv_Ok in H as ([sm1 cnt1] & s1 & _ & H).
  apply bind_inv_Ok in H as (tmp1 & s2 & Ht & H).
  apply bind_inv_Ok in H as ([sm2 cnt2] & s3 & _ & H).
  inversion H; subst. unfold pending_le. simpl.
  destruct (exceeds sm1 cnt1 threshold).
  - destruct (setitem_vslice _ _ _ _ _) as [m|] eqn:Hm; [|done].
    inversion Ht; subst. by eapply mask_le_vslice.
  - inversion Ht. reflexivity.
Qed.

Lemma h_line_grows w length threshold y :
  relates mask_le (h_line w length threshold y).
Proof.
  intros tmp s tmp' s' H. unfold h_line in H.
  apply bind_inv_Ok in H as ([[sm cnt] hi] & s1 & _ & H).
  apply bind_inv_Ok in H as ([[[[sm' cnt'] lo'] hi'] tmp1] & s2 & Hw & H).
  inversion H; subst.
  eapply (relates_while pending_le) in Hw; [|apply h_slide_grows].
  exact Hw.
Qed.

Lemma v_line_grows h length threshold x :
  relates mask_le (v_line h length threshold x).
Proof.
  intros tmp s tmp' s' H. unfold v_line in H.
  apply bind_inv_Ok in H as ([[sm cnt] hi] & s1 & _ & H).
  apply bind_inv_Ok in H as ([[[[sm' cnt'] lo'] hi'] tmp1] & s2 & Hw & H).
  inversion H; subst.
  eapply (relates_while pending_le) in Hw; [|apply v_slide_grows].
  exact Hw.
Qed.

Lemma evolves_commit (lines : ndarray bool → M (ndarray bool)) :
  relates mask_le lines → (∀ tmp, stable evolves (lines tmp)) →
  stable evolves
    (let* tmp_mask := mask_copy in
     let* tmp_mask := lines tmp_mask in
     mask_assign tmp_mask).
Proof.
  intros Hrel Hst s. unfold bind at 1. simpl.
  unfold bind. specialize (Hst (vis_mask s) s).
  destruct (lines (vis_mask s) s) as [[tmp|e] s1] eqn:Hl; simpl in *.
  - destruct Hst as (?&?&?&?&?). repeat split; try done.
    by eapply Hrel.
  - done.
Qed.

Lemma stable_evolves_readonly {A} (m : M A) :
  (∀ s, (m s).2 = s) → stable evolves m.
Proof. intros H s. rewrite H. reflexivity. Qed.

(** ** The line loops only read the object *)

Lemma readonly_ret {A} (a : A) : readonly (ret a).
Proof. apply stable_ret. exact _. Qed.

Lemma readonly_bind {A B} (m : M A) (k : A → M B) :
  readonly m → (∀ a, readonly (k a)) → readonly (bind m k).
Proof. apply stable_bind. exact _. Qed.

Lemma readonly_for_in {A} xs (body : nat → A → M A) a :
  (∀ x a, readonly (body x a)) → readonly (for_in xs body a).
Proof. apply stable_for_in. exact _. Qed.

Lemma readonly_while {A} fuel cond (body : A → M A) a :
  (∀ a, readonly (body a)) → readonly (while_ fuel cond body a).
Proof. apply stable_while. exact _. Qed.

Lemma readonly_lift_option {A} (o : option A) : readonly (lift_option o).
Proof. apply stable_lift_option. exact _. Qed.

Lemma readonly_vis_at y x : readonly (vis_at y x).
Proof. intros s. unfold vis_at. apply readonly_lift_option. Qed.

Lemma readonly_mask_at y x : readonly (mask_at y x).
Proof. intros s. unfold mask_at. apply readonly_lift_option. Qed.

Lemma readonly_add_sample y x sm cnt : readonly (add_sample y x sm cnt).
Proof.
  unfold add_sample. apply readonly_bind; [apply readonly_mask_at|].
  intros masked. destruct (negb masked); [|apply readonly_ret].
  apply readonly_bind; [apply readonly_vis_at|]. intros v. apply readonly_ret.
Qed.

Lemma readonly_sub_sample y x sm cnt : readonly (sub_sample y x sm cnt).
Proof.
  unfold sub_sample. apply readonly_bind; [apply readonly_mask_at|].
  intros masked. destruct (negb masked); [|apply readonly_ret].
  apply readonly_bind; [apply readonly_vis_at|]. intros v. apply readonly_ret.
Qed.

Lemma readonly_h_prime y length sm cnt hi :
  readonly (h_prime y length sm cnt hi).
Proof.
  unfold h_prime. apply readonly_for_in. intros x [[sm' cnt'] hi'].
  apply readonly_bind; [apply readonly_add_sample|].
  intros [sm1 cnt1]. apply readonly_ret.
Qed.

Lemma readonly_v_prime x length sm cnt hi :
  readonly (v_prime x length sm cnt hi).
Proof.
  unfold v_prime. apply readonly_for_in. intros y [[sm' cnt'] hi'].
  apply readonly_bind; [apply readonly_add_sample|].
  intros [sm1 cnt1]. apply readonly_ret.
Qed.

Lemma readonly_h_slide y length threshold l :
  readonly (h_slide y length threshold l).
Proof.
  destruct l as [[[[sm cnt] lo] hi] tmp]. unfold h_slide.
  apply readonly_bind; [apply readonly_add_sample|]. intros [sm1 cnt1].
  apply readonly_bind.
  { destruct (exceeds _ _ _); [apply readonly_lift_option | apply readonly_ret]. }
  intros tmp1. apply readonly_bind; [apply readonly_sub_sample|].
  intros [sm2 cnt2]. apply readonly_ret.
Qed.

Lemma readonly_v_slide x length threshold l :
  readonly (v_slide x length threshold l).
Proof.
  destruct l as [[[[sm cnt] lo] hi] tmp]. unfold v_slide.
  apply readonly_bind; [apply readonly_add_sample|]. intros [sm1 cnt1].
  apply readonly_bind.
  { destruct (exceeds _ _ _); [apply readonly_lift_option | apply readonly_ret]. }
  intros tmp1. apply readonly_bind; [apply readonly_sub_sample|].
  intros [sm2 cnt2]. apply readonly_ret.
Qed.

Lemma readonly_h_line w length threshold y tmp :
  readonly (h_line w length threshold y tmp).
Proof.
  unfold h_line. apply readonly_bind; [apply readonly_h_prime|].
  intros [[sm cnt] hi]. apply readonly_bind.
  { apply readonly_while. apply readonly_h_slide. }
  intros [[[[sm' cnt'] lo'] hi'] tmp']. apply readonly_ret.
Qed.

Lemma readonly_v_line h length threshold x tmp :
  readonly (v_line h length threshold x tmp).
Proof.
  unfold v_line. apply readonly_bind; [apply readonly_v_prime|].
  intros [[sm cnt] hi]. apply readonly_bind.
  { apply readonly_while. apply readonly_v_slide. }
  intros [[[[sm' cnt'] lo'] hi'] tmp']. apply readonly_ret.
Qed.

Lemma readonly_h_lines h w length threshold tmp :
  readonly (h_lines h w length threshold tmp).
Proof. unfold h_lines. apply readonly_for_in. apply readonly_h_line. Qed.

Lemma readonly_v_lines h w length threshold tmp :
  readonly (v_lines h w length threshold tmp).
Proof. unfold v_lines. apply readonly_for_in. apply readonly_v_line. Qed.

Lemma readonly_evolves {A} (m : M A) : readonly m → stable evolves m.
Proof. intros H s. rewrite <- (H s). reflexivity. Qed.

(** ** Every call lets the mask grow *)

Lemma evolves_horizontal length threshold :
  stable evolves (horizontal_sum_threshold length threshold).
Proof.
  unfold horizontal_sum_threshold. apply evolves_bind.
  { intros s. simpl. reflexivity. }
  intros [h w]. destruct (_ <? _)%Z; [apply evolves_ret|].
  destruct (_ =? _)%Z; [apply evolves_single_sample_pass|].
  destruct (_ <? _)%Z; [|apply evolves_ret].
  apply (evolves_commit (h_lines h w length threshold)).
  - unfold h_lines. apply relates_for_in; [exact _|].
    intros y. apply h_line_grows.
  - intros tmp. apply readonly_evolves, readonly_h_lines.
Qed.

Lemma evolves_vertical length threshold :
  stable evolves (vertical_sum_threshold length threshold).
Proof.
  unfold vertical_sum_threshold. apply evolves_bind.
  { intros s. simpl. reflexivity. }
  intros [h w]. destruct (_ <? _)%Z; [apply evolves_ret|].
  destruct (_ =? _)%Z; [apply evolves_single_sample_pass|].
  destruct (_ <? _)%Z; [|apply evolves_ret].
  apply (evolves_commit (v_lines h w length threshold)).
  - unfold v_lines. apply relates_for_in; [exact _|].
    intros y. apply v_line_grows.
  - intros tmp. apply readonly_evolves, readonly_v_lines.
Qed.

Lemma evolves_zip_passes factor ls ts :
  stable evolves (zip_passes factor ls ts).
Proof.
  revert ts. induction ls as [|l ls IH]; intros [|t ts]; simpl;
    try apply evolves_ret.
  apply evolves_bind; [apply evolves_horizontal|]. intros _.
  apply evolves_bind; [apply evolves_vertical|]. intros _. apply IH.
Qed.

Lemma evolves_execute_threshold factor :
  stable evolves (execute_threshold factor).
Proof. intros s. unfold execute_threshold. apply evolves_zip_passes. Qed.

Lemma evolves_run_call c : stable evolves (run_call c).
Proof.
  destruct c; simpl;
    [apply evolves_horizontal | apply evolves_vertical
     | apply evolves_execute_threshold].
Qed.

Lemma evolves_run_calls cs : stable evolves (run_calls cs).
Proof.
  induction cs as [|c cs IH]; simpl; [apply evolves_ret|].
  apply evolves_bind; [apply evolves_run_call | intros _; apply IH].
Qed.

(** ** Well-formed objects *)

Section ArrayShape.
Context {A : Type}.
Implicit Types (a b : ndarray A).

Lemma getitem_None a y x :
  wf a → ¬ (y < height a ∧ x < width a) → getitem a y x = None.
Proof.
  intros Hwf Hn. destruct (getitem a y x) as [v|] eqn:Hv; [|done].
  by apply getitem_range in Hv.
Qed.

Lemma getitem_cell (d : A) a y x :
  wf a → y < height a → x < width a → getitem a y x = Some (cell d a y x).
Proof.
  intros Hwf Hy Hx. unfold cell.
  by destruct (getitem_in_range a y x Hwf Hy Hx) as [v ->].
Qed.

Lemma wf_row a y r : wf a → rows a !! y = Some r → length r = width a.
Proof. intros [_ Hw] Hr. rewrite Forall_lookup in Hw. by eapply Hw. Qed.

Lemma wf_row_Some a y : wf a → y < height a → is_Some (rows a !! y).
Proof. intros [Hh _] Hy. apply lookup_lt_is_Some_2. lia. Qed.

Lemma ndarray_ext a b :
  wf a → wf b → height a = height b → width a = width b →
  (∀ y x, getitem a y x = getitem b y x) → a = b.
Proof.
  intros Ha Hb Hh Hw Hget.
  destruct a as [ha wa ra], b as [hb wb rb]. simpl in *. subst hb wb.
  f_equal. apply list_eq. intros y.
  destruct Ha as [Hla Hfa], Hb as [Hlb Hfb]. simpl in *.
  destruct (ra !! y) as [r1|] eqn:H1.
  - destruct (lookup_lt_is_Some_2 rb y) as [r2 H2].
    { rewrite Hlb, <- Hla. by eapply lookup_lt_Some. }
    rewrite H2. f_equal. apply list_eq. intros x.
    specialize (Hget y x). unfold getitem in Hget. simpl in Hget.
    by rewrite H1, H2 in Hget.
  - symmetry. apply lookup_ge_None. apply lookup_ge_None in H1. lia.
Qed.

Lemma wf_setitem a y x v a' :
  wf a → setitem a y x v = Some a' →
  wf a' ∧ height a' = height a ∧ width a' = width a.
Proof.
  intros [Hh Hw] H. unfold setitem in H.
  destruct (rows a !! y) as [r|] eqn:Hr; simpl in H; [|done].
  destruct (r !! x) as [c|] eqn:Hc; simpl in H; [|done].
  injection H as <-. repeat split; simpl.
  - by rewrite length_insert.
  - apply Forall_insert; [done|]. rewrite length_insert.
    rewrite Forall_lookup in Hw. by eapply Hw.
Qed.

Lemma wf_setitem_hslice a y x0 x1 v a' :
  wf a → setitem_hslice a y x0 x1 v = Some a' →
  wf a' ∧ height a' = height a ∧ width a' = width a.
Proof.
  intros [Hh Hw] H. unfold setitem_hslice in H.
  destruct (rows a !! y) as [r|] eqn:Hr; simpl in H; [|done].
  injection H as <-. repeat split; simpl.
  - by rewrite length_insert.
  - apply Forall_insert; [done|]. rewrite fill_range_length.
    rewrite Forall_lookup in Hw. by eapply Hw.
Qed.

Lemma wf_setitem_vslice a y0 y1 x v a' :
  wf a → setitem_vslice a y0 y1 x v = Some a' →
  wf a' ∧ height a' = height a ∧ width a' = width a.
Proof.
  intros [Hh Hw] H. unfold setitem_vslice in H.
  destruct (x <? width a); [|done].
  injection H as <-. repeat split; simpl.
  - by rewrite length_imap.
  - rewrite Forall_lookup in Hw. apply Forall_lookup. intros y r.
    rewrite list_lookup_imap. destruct (rows a !! y) as [r0|] eqn:Hr0; [|done].
    simpl. intros [= <-]. destruct (_ && _).
    + rewrite length_insert. by eapply Hw.
    + by eapply Hw.
Qed.

Lemma setitem_hslice_Some a y x0 x1 v :
  wf a → y < height a → is_Some (setitem_hslice a y x0 x1 v).
Proof.
  intros Hwf Hy. unfold setitem_hslice.
  destruct (wf_row_Some a y Hwf Hy) as [r ->]. simpl. eauto.
Qed.

Lemma setitem_vslice_Some a y0 y1 x v :
  x < width a → is_Some (setitem_vslice a y0 y1 x v).
Proof.
  intros Hx. unfold setitem_vslice.
  destruct (Nat.ltb_spec x (width a)); [eauto | lia].
Qed.

Lemma setitem_Some a y x v :
  wf a → y < height a → x < width a → is_Some (setitem a y x v).
Proof.
  intros Hwf Hy Hx. unfold setitem.
  destruct (wf_row_Some a y Hwf Hy) as [r Hr]. rewrite Hr. simpl.
  destruct (lookup_lt_is_Some_2 r x) as [c ->]; [|simpl; eauto].
  by rewrite (wf_row a y r Hwf Hr).
Qed.
End ArrayShape.

(** In range, the reads of the object return. *)
Lemma mask_at_ok s y x :
  wf_self s → y < height (vis s) → x < width (vis s) →
  mask_at y x s = (Ok (cell false (vis_mask s) y x), s).
Proof.
  intros (Hv & Hm & Hh & Hw) Hy Hx. unfold mask_at.
  by rewrite (getitem_cell false) by (done || lia).
Qed.

Lemma vis_at_ok s y x :
  wf_self s → y < height (vis s) → x < width (vis s) →
  vis_at y x s = (Ok (cell 0%Q (vis s) y x), s).
Proof.
  intros (Hv & Hm & Hh & Hw) Hy Hx. unfold vis_at.
  by rewrite (getitem_cell 0%Q) by (done || lia).
Qed.

(** ** The single-sample pass *)

Lemma fmap_orb_false (o : option bool) : (λ b, b || false) <$> o = o.
Proof. by destruct o as [[]|]. Qed.

Lemma flagged_on_above threshold s s' d :
  flagged_on d threshold s s' → above threshold s' = above threshold s.
Proof. intros (_ & (Hv & _) & _). unfold above. by rewrite Hv. Qed.

Lemma flagged_on_trans d1 d2 d threshold s1 s2 s3 :
  flagged_on d1 threshold s1 s2 → flagged_on d2 threshold s2 s3 →
  (∀ y x, d y x = d1 y x || d2 y x) →
  flagged_on d threshold s1 s3.
Proof.
  intros H12 H23 Hd. pose proof (flagged_on_above _ _ _ _ H12) as Hab.
  destruct H12 as (Hwf2 & (?&?&?&?) & H12), H23 as (Hwf3 & (?&?&?&?) & H23).
  split; [done|]. split; [repeat split; congruence|].
  intros y x. rewrite H23, H12, Hab, Hd.
  destruct (getitem (vis_mask s1) y x) as [b|]; simpl; [|done].
  f_equal. by destruct b, (d1 y x), (d2 y x), (above threshold s1 y x).
Qed.

Lemma flagged_on_refl threshold s :
  wf_self s → flagged_on (λ _ _, false) threshold s s.
Proof.
  intros Hwf. split; [done|]. split; [by repeat split|].
  intros y x. symmetry. apply fmap_orb_false.
Qed.

Lemma flagged_on_ext d d' threshold s s' :
  (∀ y x, d y x = d' y x) →
  flagged_on d threshold s s' → flagged_on d' threshold s s'.
Proof.
  intros Hd (Hwf & Hsame & H). split; [done|]. split; [done|].
  intros y x. by rewrite H, Hd.
Qed.

Lemma flag_sample_ok threshold y x s :
  wf_self s → y < height (vis s) → x < width (vis s) →
  ∃ s', flag_sample threshold y x s = (Ok tt, s')
        ∧ flagged_on (λ y' x', bool_decide (y' = y ∧ x' = x)) threshold s s'.
Proof.
  intros Hwf Hy Hx. unfold flag_sample.
  erewrite bind_Ok by (by apply mask_at_ok).
  pose proof Hwf as (Hv & Hm & Hh & Hw).
  pose proof (getitem_cell false (vis_mask s) y x Hm) as Hc.
  rewrite Hh, Hw in Hc. specialize (Hc Hy Hx).
  destruct (cell false (vis_mask s) y x) eqn:Hb; simpl.
  { exists s. split; [done|]. split; [done|]. split; [by repeat split|].
    intros y' x'. case_bool_decide as Hd; simpl.
    - destruct Hd as [-> ->]. by rewrite Hc.
    - symmetry. apply fmap_orb_false. }
  erewrite bind_Ok by (by apply vis_at_ok).
  fold (above threshold s y x). destruct (above threshold s y x) eqn:Ha.
  - unfold mask_set_true.
    destruct (setitem_Some (vis_mask s) y x true Hm) as [m' Hm']; [lia..|].
    rewrite Hm'. eexists. split; [done|].
    destruct (wf_setitem _ _ _ _ _ Hm Hm') as (Hwf' & Hh' & Hw').
    split; [|split; [by repeat split|]].
    + split; [done|]. split; [done|]. split; simpl; congruence.
    + intros y' x'. simpl. rewrite (getitem_setitem _ _ _ _ _ _ _ Hm').
      case_decide as Hd; case_bool_decide; try done; simpl.
      * destruct Hd as [-> ->]. by rewrite Hc, Ha.
      * symmetry. apply fmap_orb_false.
  - exists s. split; [done|]. split; [done|]. split; [by repeat split|].
    intros y' x'. case_bool_decide as Hd; simpl.
    + destruct Hd as [-> ->]. by rewrite Hc, Ha.
    + symmetry. apply fmap_orb_false.
Qed.

Ltac split_cons :=
  repeat match goal with
         | H : context [_ ∈ _ :: _] |- _ => rewrite elem_of_cons in H
         end.

Lemma flag_row_ok threshold y xs s :
  wf_self s → y < height (vis s) → Forall (λ x, x < width (vis s)) xs →
  ∃ s', for_in xs (λ x _, flag_sample threshold y x) tt s = (Ok tt, s')
        ∧ flagged_on (λ y' x', bool_decide (y' = y ∧ x' ∈ xs)) threshold s s'.
Proof.
  revert s. induction xs as [|x xs IH]; intros s Hwf Hy Hxs; simpl.
  - exists s. split; [done|].
    eapply flagged_on_ext; [|by apply flagged_on_refl].
    intros y' x'. symmetry. apply bool_decide_eq_false_2.
    intros [_ H]. by apply not_elem_of_nil in H.
  - apply Forall_cons_1 in Hxs as [Hx Hxs].
    destruct (flag_sample_ok threshold y x s Hwf Hy Hx) as (s1 & H1 & F1).
    erewrite bind_Ok by exact H1.
    pose proof F1 as (Hwf1 & (Hv1 & _) & _).
    destruct (IH s1) as (s2 & H2 & F2); [done | by rewrite Hv1..|].
    exists s2. split; [done|].
    eapply flagged_on_trans; [exact F1 | exact F2 |].
    intros y' x'. simpl.
    repeat case_bool_decide; simpl; try done; exfalso; split_cons; tauto.
Qed.

Lemma flag_rows_ok threshold ys xs s :
  wf_self s → Forall (λ y, y < height (vis s)) ys →
  Forall (λ x, x < width (vis s)) xs →
  ∃ s', for_in ys (λ y _, for_in xs (λ x _, flag_sample threshold y x) tt) tt s
        = (Ok tt, s')
        ∧ flagged_on (λ y' x', bool_decide (y' ∈ ys ∧ x' ∈ xs)) threshold s s'.
Proof.
  revert s. induction ys as [|y ys IH]; intros s Hwf Hys Hxs; simpl.
  - exists s. split; [done|].
    eapply flagged_on_ext; [|by apply flagged_on_refl].
    by intros y' x'.
  - apply Forall_cons_1 in Hys as [Hy Hys].
    destruct (flag_row_ok threshold y xs s Hwf Hy Hxs) as (s1 & H1 & F1).
    erewrite bind_Ok by exact H1.
    pose proof F1 as (Hwf1 & (Hv1 & _) & _).
    destruct (IH s1) as (s2 & H2 & F2); [done | by rewrite Hv1..|].
    exists s2. split; [done|].
    eapply flagged_on_trans; [exact F1 | exact F2 |].
    intros y' x'. simpl.
    repeat case_bool_decide; simpl; try done; exfalso; split_cons; tauto.
Qed.

Lemma xrange_bound (n : nat) : Forall (λ i, i < n) (xrange (Z.of_nat n)).
Proof.
  unfold xrange. rewrite Nat2Z.id. apply list.Forall_forall.
  intros i Hi%elem_of_seq. lia.
Qed.

Lemma elem_of_xrange (n i : nat) : i ∈ xrange (Z.of_nat n) ↔ i < n.
Proof. unfold xrange. rewrite Nat2Z.id, elem_of_seq. lia. Qed.

(** The single-sample pass returns, and flags the samples above the
    threshold. *)
Lemma single_sample_pass_ok threshold s :
  wf_self s →
  ∃ s', single_sample_pass (height (vis s)) (width (vis s)) threshold s
        = (Ok tt, s')
        ∧ flagged_on (λ _ _, true) threshold s s'.
Proof.
  intros Hwf. unfold single_sample_pass.
  destruct (flag_rows_ok threshold (xrange (Z.of_nat (height (vis s))))
              (xrange (Z.of_nat (width (vis s)))) s Hwf)
    as (s' & H & Hwf' & Hsame & Hget); [apply xrange_bound..|].
  exists s'. split; [done|]. split; [done|]. split; [done|].
  intros y x. rewrite Hget.
  destruct (getitem (vis_mask s) y x) as [b|] eqn:Hb; simpl; [|done].
  destruct Hwf as (_ & Hm & Hh & Hw).
  apply getitem_range in Hb as [Hy Hx]; [|done].
  rewrite bool_decide_eq_true_2; [done|].
  rewrite !elem_of_xrange. lia.
Qed.

(** ** The passes are line scans *)

Lemma line_slide_length vl ml length threshold fuel st :
  List.length (line_slide vl ml length threshold fuel st).2 = List.length st.2.
Proof.
  revert st. induction fuel as [|n IH]; intros st; simpl; [done|].
  destruct (_ <? _); [|done]. rewrite IH.
  destruct st as [[[acc lo] hi] pend]. unfold line_step. simpl.
  destruct (exceeds _ _ _); [apply fill_range_length | done].
Qed.

Lemma scan_line_length vl ml length threshold pend :
  List.length (scan_line vl ml length threshold pend) = List.length pend.
Proof.
  unfold scan_line. destruct (line_prime _ _ _ _ _) as [acc hi].
  by rewrite line_slide_length.
Qed.

Section RowFacts.
Context {A : Type}.
Implicit Types (a : ndarray A) (r : list A).

Lemma cell_row (d : A) a y x : cell d a y x = default d (row a y !! x).
Proof. unfold cell, getitem, row. by destruct (rows a !! y). Qed.

Lemma row_length a y : wf a → y < height a → length (row a y) = width a.
Proof.
  intros Hwf Hy. unfold row.
  destruct (wf_row_Some a y Hwf Hy) as [r Hr]. rewrite Hr. simpl.
  by eapply wf_row.
Qed.

Lemma row_lookup a y : wf a → y < height a → rows a !! y = Some (row a y).
Proof.
  intros Hwf Hy. unfold row.
  by destruct (wf_row_Some a y Hwf Hy) as [r ->].
Qed.

Lemma set_row_id a y : set_row a y (row a y) = a.
Proof.
  destruct a as [h w rs]. unfold set_row, row. simpl. f_equal.
  destruct (rs !! y) as [r|] eqn:Hr; simpl.
  - by apply list_insert_id.
  - apply list_insert_ge. by apply lookup_ge_None.
Qed.

Lemma set_row_set_row a y r r' : set_row (set_row a y r) y r' = set_row a y r'.
Proof. unfold set_row. simpl. by rewrite list_insert_insert_eq. Qed.

Lemma row_set_row a y r : wf a → y < height a → row (set_row a y r) y = r.
Proof.
  intros [Hh _] Hy. unfold row, set_row. simpl.
  by rewrite list_lookup_insert_eq by lia.
Qed.

Lemma row_set_row_ne a y y' r : y' ≠ y → row (set_row a y r) y' = row a y'.
Proof.
  intros Hy. unfold row, set_row. simpl.
  by rewrite list_lookup_insert_ne.
Qed.

Lemma wf_set_row a y r : wf a → length r = width a → wf (set_row a y r).
Proof.
  intros [Hh Hw] Hr. split; simpl.
  - by rewrite length_insert.
  - destruct (decide (y < length (rows a))).
    + by apply Forall_insert.
    + rewrite list_insert_ge by lia. done.
Qed.

Lemma setitem_hslice_set_row a y x0 x1 v :
  wf a → y < height a →
  setitem_hslice a y x0 x1 v
  = Some (set_row a y (fill_range x0 x1 v (row a y))).
Proof.
  intros Hwf Hy. unfold setitem_hslice.
  by rewrite (row_lookup a y Hwf Hy).
Qed.
End RowFacts.

#[local] Arguments h_slide : simpl never.
#[local] Arguments v_slide : simpl never.
#[local] Arguments line_step : simpl never.

Section HorizontalScan.
Variables (s : SumThreshold) (length : Z) (threshold : Q) (y : nat).
Hypothesis Hwf : wf_self s.
Hypothesis Hy : y < height (vis s).

Let vl := row (vis s) y.
Let ml := row (vis_mask s) y.
Let w := width (vis s).

Lemma add_sample_ok x acc :
  x < w →
  add_sample y x acc.1 acc.2 s = (Ok (line_add vl ml x acc), s).
Proof.
  intros Hx. unfold add_sample.
  erewrite bind_Ok by (by apply mask_at_ok).
  unfold line_add. subst vl ml. rewrite <- !cell_row.
  destruct (negb _); [|by destruct acc].
  by erewrite bind_Ok by (by apply vis_at_ok).
Qed.

Lemma sub_sample_ok x acc :
  x < w →
  sub_sample y x acc.1 acc.2 s = (Ok (line_sub vl ml x acc), s).
Proof.
  intros Hx. unfold sub_sample.
  erewrite bind_Ok by (by apply mask_at_ok).
  unfold line_sub. subst vl ml. rewrite <- !cell_row.
  destruct (negb _); [|by destruct acc].
  by erewrite bind_Ok by (by apply vis_at_ok).
Qed.

Lemma h_prime_ok ix acc hi :
  Forall (λ i, i < w) ix →
  for_in ix (λ right_ '(sm, cnt, _),
               let* (sm, cnt) := add_sample y right_ sm cnt in
               ret (sm, cnt, right_)) (acc, hi) s
  = (Ok (line_prime vl ml ix acc hi), s).
Proof.
  revert acc hi. induction ix as [|i ix IH]; intros acc hi Hix; simpl.
  - done.
  - apply Forall_cons_1 in Hix as [Hi Hix].
    destruct acc as [sm cnt].
    erewrite bind_Ok; [by apply IH|].
    erewrite bind_Ok by (by apply (add_sample_ok i (sm, cnt))).
    by destruct (line_add vl ml i (sm, cnt)).
Qed.

Lemma h_slide_ok acc lo hi tmp :
  wf tmp → height tmp = height (vis s) → lo ≤ hi → hi < w →
  h_slide y length threshold (acc, lo, hi, tmp) s
  = (Ok (let st := line_step vl ml length threshold (acc, lo, hi, row tmp y)
         in (st.1, set_row tmp y st.2)), s).
Proof.
  intros Ht Hh Hlo Hhi. unfold h_slide. destruct acc as [sm cnt].
  erewrite bind_Ok by (by apply (add_sample_ok hi (sm, cnt))).
  unfold line_step.
  destruct (line_add vl ml hi (sm, cnt)) as [sm1 cnt1] eqn:Hadd. simpl.
  destruct (exceeds sm1 cnt1 threshold).
  - rewrite setitem_hslice_set_row by (done || lia).
    erewrite bind_Ok by done.
    erewrite bind_Ok by (apply (sub_sample_ok lo (sm1, cnt1)); lia).
    by destruct (line_sub vl ml lo (sm1, cnt1)).
  - erewrite bind_Ok by done.
    erewrite bind_Ok by (apply (sub_sample_ok lo (sm1, cnt1)); lia).
    destruct (line_sub vl ml lo (sm1, cnt1)). by rewrite set_row_id.
Qed.

Lemma h_while_ok fuel acc lo hi tmp :
  wf tmp → height tmp = height (vis s) → width tmp = w →
  lo ≤ hi → hi ≤ w → w < hi + fuel →
  while_ fuel (λ '(_, _, _, right_, _), right_ <? w)
         (h_slide y length threshold) (acc, lo, hi, tmp) s
  = (Ok (let st := line_slide vl ml length threshold fuel
                              (acc, lo, hi, row tmp y)
         in (st.1, set_row tmp y st.2)), s).
Proof.
  revert acc lo hi tmp.
  induction fuel as [|n IH]; intros acc lo hi tmp Ht Hh Hw Hlo Hhi Hf;
    [lia|].
  simpl. destruct acc as [sm cnt].
  assert (Hlen : List.length vl = w) by (by apply row_length; [apply Hwf|]).
  rewrite Hlen.
  destruct (Nat.ltb_spec hi w) as [Hlt|Hge].
  - erewrite bind_Ok by (by apply h_slide_ok).
    destruct (line_step vl ml length threshold (sm, cnt, lo, hi, row tmp y))
      as [[[acc1 lo1] hi1] pend1] eqn:Hstep.
    assert (lo1 = lo + 1 ∧ hi1 = hi + 1
            ∧ List.length pend1 = List.length (row tmp y))
      as (-> & -> & Hp).
    { unfold line_step in Hstep. inversion Hstep. repeat split.
      destruct (exceeds _ _ _); [apply fill_range_length | done]. }
    rewrite row_length in Hp by (done || lia).
    simpl. rewrite IH; simpl.
    + by rewrite row_set_row, set_row_set_row by (done || lia).
    + apply wf_set_row; [done | lia].
    + done.
    + done.
    + lia.
    + lia.
    + lia.
  - simpl. by rewrite set_row_id.
Qed.
End HorizontalScan.

Lemma line_prime_bound vl ml (P : nat → Prop) ix acc hi :
  P hi → Forall P ix → P (line_prime vl ml ix acc hi).2.
Proof.
  revert acc hi. induction ix as [|i ix IH]; intros acc hi Hhi Hix; simpl.
  - done.
  - apply Forall_cons_1 in Hix as [Hi Hix]. by apply IH.
Qed.

Lemma xrange_pred_bound (length : Z) (w : nat) :
  (length <= Z.of_nat w)%Z → Forall (λ i, i < w) (xrange (length - 1)).
Proof.
  intros Hl. unfold xrange. apply list.Forall_forall.
  intros i Hi%elem_of_seq. lia.
Qed.

(** A line of [horizontal_sum_threshold] is the scan of a row. *)
Lemma h_line_ok s length threshold y tmp :
  wf_self s → y < height (vis s) →
  (1 < length <= Z.of_nat (width (vis s)))%Z →
  wf tmp → height tmp = height (vis s) → width tmp = width (vis s) →
  h_line (width (vis s)) length threshold y tmp s
  = (Ok (set_row tmp y
           (scan_line (row (vis s) y) (row (vis_mask s) y) length threshold
                      (row tmp y))), s).
Proof.
  intros Hwf Hy Hl Ht Hh Hw. unfold h_line, h_prime.
  pose proof (xrange_pred_bound length (width (vis s)) (proj2 Hl)) as Hix.
  erewrite bind_Ok by (by apply (h_prime_ok s y Hwf Hy)).
  unfold scan_line.
  pose proof (line_prime_bound (row (vis s) y) (row (vis_mask s) y)
                (λ i, i < width (vis s)) (xrange (length - 1)) (0%Q, 0%Z) 0)
    as Hb.
  destruct (line_prime _ _ _ _ _) as [[sm cnt] hi]. simpl in Hb.
  assert (hi < width (vis s)) as Hhi by (apply Hb; [lia | done]).
  pose proof (h_while_ok s length threshold y Hwf Hy (S (width (vis s)))
                (sm, cnt) 0 hi tmp Ht Hh Hw) as Hwhile.
  rewrite (bind_Ok _ _ _ _ _ (Hwhile ltac:(lia) ltac:(lia) ltac:(lia))).
  rewrite (row_length (vis s) y (proj1 Hwf) Hy).
  cbv zeta.
  by destruct (line_slide _ _ _ _ _ _) as [[[[sm1 cnt1] lo1] hi1] pend1].
Qed.

Lemma h_scan_shape s length threshold ys tmp :
  wf_self s → Forall (λ y, y < height (vis s)) ys →
  wf tmp → height tmp = height (vis s) → width tmp = width (vis s) →
  wf (h_scan s length threshold ys tmp)
  ∧ height (h_scan s length threshold ys tmp) = height (vis s)
  ∧ width (h_scan s length threshold ys tmp) = width (vis s).
Proof.
  intros Hwf. revert tmp.
  induction ys as [|y ys IH]; intros tmp Hys Ht Hh Hw.
  - done.
  - apply Forall_cons_1 in Hys as [Hy Hys].
    simpl. apply IH; [done| |done..].
    apply wf_set_row; [done|]. rewrite scan_line_length.
    apply row_length; [done | lia].
Qed.

Lemma h_lines_ok s length threshold ys tmp :
  wf_self s → (1 < length <= Z.of_nat (width (vis s)))%Z →
  Forall (λ y, y < height (vis s)) ys →
  wf tmp → height tmp = height (vis s) → width tmp = width (vis s) →
  for_in ys (h_line (width (vis s)) length threshold) tmp s
  = (Ok (h_scan s length threshold ys tmp), s).
Proof.
  intros Hwf Hl. revert tmp.
  induction ys as [|y ys IH]; intros tmp Hys Ht Hh Hw; simpl; [done|].
  apply Forall_cons_1 in Hys as [Hy Hys].
  erewrite bind_Ok by (by apply h_line_ok).
  apply IH; [done| |done..].
  apply wf_set_row; [done|]. rewrite scan_line_length.
  apply row_length; [done | lia].
Qed.

Lemma h_scan_row s length threshold ys tmp y :
  wf_self s → NoDup ys → Forall (λ y, y < height (vis s)) ys →
  wf tmp → height tmp = height (vis s) → width tmp = width (vis s) →
  row (h_scan s length threshold ys tmp) y
  = if decide (y ∈ ys)
    then scan_line (row (vis s) y) (row (vis_mask s) y) length threshold
                   (row tmp y)
    else row tmp y.
Proof.
  intros Hwf. revert tmp.
  induction ys as [|y0 ys IH]; intros tmp Hnd Hys Ht Hh Hw; simpl.
  - done.
  - apply Forall_cons_1 in Hys as [Hy0 Hys].
    apply list.NoDup_cons in Hnd as [Hy0' Hnd].
    rewrite IH; [|done|done| |done..].
    2:{ apply wf_set_row; [done|]. rewrite scan_line_length.
        apply row_length; [done | lia]. }
    destruct (decide (y = y0)) as [->|Hne].
    + rewrite decide_False by done. rewrite decide_True by (apply elem_of_cons; tauto).
      by rewrite row_set_row by (done || lia).
    + rewrite row_set_row_ne by done.
      destruct (decide (y ∈ ys)).
      * by rewrite decide_True by (apply elem_of_cons; tauto).
      * by rewrite decide_False by (rewrite elem_of_cons; tauto).
Qed.

Section ColFacts.
Context {A : Type}.
Implicit Types (a : ndarray A) (c : list A).

Lemma cell_col (d : A) a y x : cell d a y x = default d (col d a x !! y).
Proof.
  unfold cell, getitem, col. rewrite list_lookup_fmap.
  by destruct (rows a !! y).
Qed.

Lemma col_length (d : A) a x : wf a → length (col d a x) = height a.
Proof. intros [Hh _]. unfold col. by rewrite length_map. Qed.

Lemma set_col_id (d : A) a x : set_col a x (col d a x) = a.
Proof.
  destruct a as [h w rs]. unfold set_col, col. simpl. f_equal.
  apply list_eq. intros y. rewrite lookup_zip_with, list_lookup_fmap.
  destruct (rs !! y) as [r|]; simpl; [|done]. f_equal.
  destruct (r !! x) as [v|] eqn:Hv; simpl.
  - by apply list_insert_id.
  - apply list_insert_ge. by apply lookup_ge_None.
Qed.

Lemma set_col_set_col a x c c' :
  wf a → length c = height a →
  set_col (set_col a x c) x c' = set_col a x c'.
Proof.
  intros [Hh _] Hc. unfold set_col. simpl. f_equal.
  apply list_eq. intros y. rewrite !lookup_zip_with.
  destruct (rows a !! y) as [r|] eqn:Hr; simpl; [|done].
  destruct (lookup_lt_is_Some_2 c y) as [v ->].
  { rewrite Hc, <- Hh. by eapply lookup_lt_Some. }
  simpl. destruct (c' !! y); simpl; [|done].
  by rewrite list_insert_insert_eq.
Qed.

Lemma col_set_col (d : A) a x c :
  wf a → x < width a → length c = height a → col d (set_col a x c) x = c.
Proof.
  intros [Hh Hw] Hx Hc. unfold col, set_col. simpl.
  apply list_eq. intros y. rewrite list_lookup_fmap, lookup_zip_with.
  destruct (rows a !! y) as [r|] eqn:Hr; simpl.
  - destruct (lookup_lt_is_Some_2 c y) as [v Hv].
    { rewrite Hc, <- Hh. by eapply lookup_lt_Some. }
    rewrite Hv. simpl. rewrite list_lookup_insert_eq; [done|].
    rewrite Forall_lookup in Hw. by rewrite (Hw _ _ Hr).
  - symmetry. apply lookup_ge_None. apply lookup_ge_None in Hr. lia.
Qed.

Lemma col_set_col_ne (d : A) a x x' c :
  wf a → length c = height a → x' ≠ x →
  col d (set_col a x c) x' = col d a x'.
Proof.
  intros [Hh Hw] Hc Hx. unfold col, set_col. simpl.
  apply list_eq. intros y. rewrite !list_lookup_fmap, lookup_zip_with.
  destruct (rows a !! y) as [r|] eqn:Hr; simpl; [|done].
  destruct (lookup_lt_is_Some_2 c y) as [v Hv].
  { rewrite Hc, <- Hh. by eapply lookup_lt_Some. }
  rewrite Hv. simpl. by rewrite list_lookup_insert_ne.
Qed.

Lemma wf_set_col a x c : wf a → length c = height a → wf (set_col a x c).
Proof.
  intros [Hh Hw] Hc. split; simpl.
  - rewrite length_zip_with. lia.
  - rewrite Forall_lookup in Hw. apply Forall_lookup. intros y r.
    rewrite lookup_zip_with. intros Hr.
    destruct (rows a !! y) as [r0|] eqn:Hr0; simpl in Hr; [|done].
    destruct (c !! y) as [v|]; simpl in Hr; [|done].
    injection Hr as <-. rewrite length_insert. by eapply Hw.
Qed.

Lemma setitem_vslice_set_col (d : A) a y0 y1 x v :
  x < width a →
  setitem_vslice a y0 y1 x v
  = Some (set_col a x (fill_range y0 y1 v (col d a x))).
Proof.
  intros Hx. unfold setitem_vslice.
  destruct (Nat.ltb_spec x (width a)); [|lia].
  f_equal. unfold set_col. f_equal.
  apply list_eq. intros y.
  rewrite list_lookup_imap, lookup_zip_with, fill_range_lookup.
  unfold col. rewrite list_lookup_fmap.
  destruct (rows a !! y) as [r|] eqn:Hr; simpl; [|done]. f_equal.
  destruct (_ && _); [done|]. symmetry.
  destruct (r !! x) as [c|] eqn:Hc; simpl.
  - by apply list_insert_id.
  - apply list_insert_ge. by apply lookup_ge_None.
Qed.
End ColFacts.

Section VerticalScan.
Variables (s : SumThreshold) (length : Z) (threshold : Q) (x : nat).
Hypothesis Hwf : wf_self s.
Hypothesis Hx : x < width (vis s).

Let vl := col 0%Q (vis s) x.
Let ml := col false (vis_mask s) x.
Let h := height (vis s).

Lemma add_sample_col_ok y acc :
  y < h →
  add_sample y x acc.1 acc.2 s = (Ok (line_add vl ml y acc), s).
Proof.
  intros Hy. unfold add_sample.
  erewrite bind_Ok by (by apply mask_at_ok).
  unfold line_add. subst vl ml. rewrite <- !cell_col.
  destruct (negb _); [|by destruct acc].
  by erewrite bind_Ok by (by apply vis_at_ok).
Qed.

Lemma sub_sample_col_ok y acc :
  y < h →
  sub_sample y x acc.1 acc.2 s = (Ok (line_sub vl ml y acc), s).
Proof.
  intros Hy. unfold sub_sample.
  erewrite bind_Ok by (by apply mask_at_ok).
  unfold line_sub. subst vl ml. rewrite <- !cell_col.
  destruct (negb _); [|by destruct acc].
  by erewrite bind_Ok by (by apply vis_at_ok).
Qed.

Lemma v_prime_ok ix acc hi :
  Forall (λ i, i < h) ix →
  for_in ix (λ bottom '(sm, cnt, _),
               let* (sm, cnt) := add_sample bottom x sm cnt in
               ret (sm, cnt, bottom)) (acc, hi) s
  = (Ok (line_prime vl ml ix acc hi), s).
Proof.
  revert acc hi. induction ix as [|i ix IH]; intros acc hi Hix; simpl.
  - done.
  - apply Forall_cons_1 in Hix as [Hi Hix].
    destruct acc as [sm cnt].
    erewrite bind_Ok; [by apply IH|].
    erewrite bind_Ok by (by apply (add_sample_col_ok i (sm, cnt))).
    by destruct (line_add vl ml i (sm, cnt)).
Qed.

Lemma v_slide_ok acc lo hi tmp :
  wf tmp → width tmp = width (vis s) → lo ≤ hi → hi < h →
  v_slide x length threshold (acc, lo, hi, tmp) s
  = (Ok (let st := line_step vl ml length threshold
                             (acc, lo, hi, col false tmp x)
         in (st.1, set_col tmp x st.2)), s).
Proof.
  intros Ht Hw Hlo Hhi. unfold v_slide. destruct acc as [sm cnt].
  erewrite bind_Ok by (by apply (add_sample_col_ok hi (sm, cnt))).
  unfold line_step.
  destruct (line_add vl ml hi (sm, cnt)) as [sm1 cnt1] eqn:Hadd. simpl.
  destruct (exceeds sm1 cnt1 threshold).
  - rewrite (setitem_vslice_set_col false) by lia.
    erewrite bind_Ok by done.
    erewrite bind_Ok by (apply (sub_sample_col_ok lo (sm1, cnt1)); lia).
    by destruct (line_sub vl ml lo (sm1, cnt1)).
  - erewrite bind_Ok by done.
    erewrite bind_Ok by (apply (sub_sample_col_ok lo (sm1, cnt1)); lia).
    destruct (line_sub vl ml lo (sm1, cnt1)). by rewrite set_col_id.
Qed.

Lemma v_while_ok fuel acc lo hi tmp :
  wf tmp → height tmp = h → width tmp = width (vis s) →
  lo ≤ hi → hi ≤ h → h < hi + fuel →
  while_ fuel (λ '(_, _, _, bottom, _), bottom <? h)
         (v_slide x length threshold) (acc, lo, hi, tmp) s
  = (Ok (let st := line_slide vl ml length threshold fuel
                              (acc, lo, hi, col false tmp x)
         in (st.1, set_col tmp x st.2)), s).
Proof.
  revert acc lo hi tmp.
  induction fuel as [|n IH]; intros acc lo hi tmp Ht Hh Hw Hlo Hhi Hf;
    [lia|].
  simpl. destruct acc as [sm cnt].
  assert (Hlen : List.length vl = h) by (apply col_length, Hwf).
  rewrite Hlen.
  destruct (Nat.ltb_spec hi h) as [Hlt|Hge].
  - erewrite bind_Ok by (by apply v_slide_ok).
    destruct (line_step vl ml length threshold
                        (sm, cnt, lo, hi, col false tmp x))
      as [[[acc1 lo1] hi1] pend1] eqn:Hstep.
    assert (lo1 = lo + 1 ∧ hi1 = hi + 1
            ∧ List.length pend1 = List.length (col false tmp x))
      as (-> & -> & Hp).
    { unfold line_step in Hstep. inversion Hstep. repeat split.
      destruct (exceeds _ _ _); [apply fill_range_length | done]. }
    rewrite col_length in Hp by done.
    simpl. rewrite IH; simpl.
    + by rewrite col_set_col, set_col_set_col by (done || lia).
    + apply wf_set_col; [done | lia].
    + done.
    + done.
    + lia.
    + lia.
    + lia.
  - simpl. by rewrite set_col_id.
Qed.
End VerticalScan.

(** A line of [vertical_sum_threshold] is the scan of a column. *)
Lemma v_line_ok s length threshold x tmp :
  wf_self s → x < width (vis s) →
  (1 < length <= Z.of_nat (height (vis s)))%Z →
  wf tmp → height tmp = height (vis s) → width tmp = width (vis s) →
  v_line (height (vis s)) length threshold x tmp s
  = (Ok (set_col tmp x
           (scan_line (col 0%Q (vis s) x) (col false (vis_mask s) x) length
                      threshold (col false tmp x))), s).
Proof.
  intros Hwf Hx Hl Ht Hh Hw. unfold v_line, v_prime.
  pose proof (xrange_pred_bound length (height (vis s)) (proj2 Hl)) as Hix.
  erewrite bind_Ok by (by apply (v_prime_ok s x Hwf Hx)).
  unfold scan_line.
  pose proof (line_prime_bound (col 0%Q (vis s) x) (col false (vis_mask s) x)
                (λ i, i < height (vis s)) (xrange (length - 1)) (0%Q, 0%Z) 0)
    as Hb.
  destruct (line_prime _ _ _ _ _) as [[sm cnt] hi]. simpl in Hb.
  assert (hi < height (vis s)) as Hhi by (apply Hb; [lia | done]).
  pose proof (v_while_ok s length threshold x Hwf Hx (S (height (vis s)))
                (sm, cnt) 0 hi tmp Ht Hh Hw) as Hwhile.
  rewrite (bind_Ok _ _ _ _ _ (Hwhile ltac:(lia) ltac:(lia) ltac:(lia))).
  rewrite (col_length 0%Q (vis s) x (proj1 Hwf)).
  cbv zeta.
  by destruct (line_slide _ _ _ _ _ _) as [[[[sm1 cnt1] lo1] hi1] pend1].
Qed.

Lemma v_scan_shape s length threshold xs tmp :
  wf_self s →
  wf tmp → height tmp = height (vis s) → width tmp = width (vis s) →
  wf (v_scan s length threshold xs tmp)
  ∧ height (v_scan s length threshold xs tmp) = height (vis s)
  ∧ width (v_scan s length threshold xs tmp) = width (vis s).
Proof.
  intros Hwf. revert tmp.
  induction xs as [|x xs IH]; intros tmp Ht Hh Hw.
  - done.
  - simpl. apply IH; [|done..].
    apply wf_set_col; [done|]. rewrite scan_line_length.
    by apply col_length.
Qed.

Lemma v_lines_ok s length threshold xs tmp :
  wf_self s → (1 < length <= Z.of_nat (height (vis s)))%Z →
  Forall (λ x, x < width (vis s)) xs →
  wf tmp → height tmp = height (vis s) → width tmp = width (vis s) →
  for_in xs (v_line (height (vis s)) length threshold) tmp s
  = (Ok (v_scan s length threshold xs tmp), s).
Proof.
  intros Hwf Hl. revert tmp.
  induction xs as [|x xs IH]; intros tmp Hxs Ht Hh Hw; simpl; [done|].
  apply Forall_cons_1 in Hxs as [Hx Hxs].
  erewrite bind_Ok by (by apply v_line_ok).
  apply IH; [done| |done..].
  apply wf_set_col; [done|]. rewrite scan_line_length.
  by apply col_length.
Qed.

Lemma v_scan_col s length threshold xs tmp x :
  wf_self s → NoDup xs → Forall (λ x, x < width (vis s)) xs →
  wf tmp → height tmp = height (vis s) → width tmp = width (vis s) →
  col false (v_scan s length threshold xs tmp) x
  = if decide (x ∈ xs)
    then scan_line (col 0%Q (vis s) x) (col false (vis_mask s) x) length
                   threshold (col false tmp x)
    else col false tmp x.
Proof.
  intros Hwf. revert tmp.
  induction xs as [|x0 xs IH]; intros tmp Hnd Hxs Ht Hh Hw; simpl.
  - done.
  - apply Forall_cons_1 in Hxs as [Hx0 Hxs].
    apply list.NoDup_cons in Hnd as [Hx0' Hnd].
    assert (List.length
              (scan_line (col 0%Q (vis s) x0) (col false (vis_mask s) x0)
                         length threshold (col false tmp x0)) = height tmp)
      as Hlen by (rewrite scan_line_length; by apply col_length).
    rewrite IH; [|done|done| |done..].
    2:{ by apply wf_set_col. }
    destruct (decide (x = x0)) as [->|Hne].
    + rewrite decide_False by done. rewrite decide_True by (apply elem_of_cons; tauto).
      by rewrite col_set_col by (done || lia).
    + rewrite col_set_col_ne by done.
      destruct (decide (x ∈ xs)).
      * by rewrite decide_True by (apply elem_of_cons; tauto).
      * by rewrite decide_False by (rewrite elem_of_cons; tauto).
Qed.

(** ** The passes on a well-formed object *)

Lemma NoDup_xrange n : NoDup (xrange n).
Proof. apply NoDup_seq. Qed.

Lemma horizontal_unfold s length threshold :
  horizontal_sum_threshold length threshold s
  = (if (Z.of_nat (width (vis s)) <? length)%Z then ret tt
     else if (length =? 1)%Z
          then single_sample_pass (height (vis s)) (width (vis s)) threshold
     else if (1 <? length)%Z then
       let* tmp_mask := mask_copy in
       let* tmp_mask :=
         h_lines (height (vis s)) (width (vis s)) length threshold tmp_mask in
       mask_assign tmp_mask
     else ret tt) s.
Proof. reflexivity. Qed.

Lemma vertical_unfold s length threshold :
  vertical_sum_threshold length threshold s
  = (if (Z.of_nat (height (vis s)) <? length)%Z then ret tt
     else if (length =? 1)%Z
          then single_sample_pass (height (vis s)) (width (vis s)) threshold
     else if (1 <? length)%Z then
       let* tmp_mask := mask_copy in
       let* tmp_mask :=
         v_lines (height (vis s)) (width (vis s)) length threshold tmp_mask in
       mask_assign tmp_mask
     else ret tt) s.
Proof. reflexivity. Qed.

Lemma horizontal_scan_ok s length threshold :
  wf_self s → (1 < length <= Z.of_nat (width (vis s)))%Z →
  horizontal_sum_threshold length threshold s
  = (Ok tt, with_mask s (h_scan s length threshold
                           (xrange (Z.of_nat (height (vis s)))) (vis_mask s))).
Proof.
  intros Hwf Hl. rewrite horizontal_unfold.
  destruct (Z.ltb_spec (Z.of_nat (width (vis s))) length); [lia|].
  destruct (Z.eqb_spec length 1); [lia|].
  destruct (Z.ltb_spec 1 length); [|lia].
  erewrite bind_Ok by reflexivity.
  destruct Hwf as (Hv & Hm & Hh & Hw) eqn:E. clear E.
  unfold h_lines. erewrite bind_Ok; [reflexivity|].
  apply h_lines_ok; try done. apply xrange_bound.
Qed.

Lemma vertical_scan_ok s length threshold :
  wf_self s → (1 < length <= Z.of_nat (height (vis s)))%Z →
  vertical_sum_threshold length threshold s
  = (Ok tt, with_mask s (v_scan s length threshold
                           (xrange (Z.of_nat (width (vis s)))) (vis_mask s))).
Proof.
  intros Hwf Hl. rewrite vertical_unfold.
  destruct (Z.ltb_spec (Z.of_nat (height (vis s))) length); [lia|].
  destruct (Z.eqb_spec length 1); [lia|].
  destruct (Z.ltb_spec 1 length); [|lia].
  erewrite bind_Ok by reflexivity.
  destruct Hwf as (Hv & Hm & Hh & Hw) eqn:E. clear E.
  unfold v_lines. erewrite bind_Ok; [reflexivity|].
  apply v_lines_ok; try done. apply xrange_bound.
Qed.

Lemma horizontal_single_ok s threshold :
  wf_self s → 1 ≤ width (vis s) →
  horizontal_sum_threshold 1 threshold s
  = single_sample_pass (height (vis s)) (width (vis s)) threshold s.
Proof.
  intros Hwf Hw. rewrite horizontal_unfold.
  destruct (Z.ltb_spec (Z.of_nat (width (vis s))) 1); [lia|]. done.
Qed.

Lemma vertical_single_ok s threshold :
  wf_self s → 1 ≤ height (vis s) →
  vertical_sum_threshold 1 threshold s
  = single_sample_pass (height (vis s)) (width (vis s)) threshold s.
Proof.
  intros Hwf Hw. rewrite vertical_unfold.
  destruct (Z.ltb_spec (Z.of_nat (height (vis s))) 1); [lia|]. done.
Qed.

Lemma horizontal_skip s length threshold :
  (Z.of_nat (width (vis s)) < length ∨ length < 1)%Z →
  horizontal_sum_threshold length threshold s = (Ok tt, s).
Proof.
  intros Hl. rewrite horizontal_unfold.
  destruct (Z.ltb_spec (Z.of_nat (width (vis s))) length); [done|].
  destruct (Z.eqb_spec length 1); [lia|].
  destruct (Z.ltb_spec 1 length); [lia|done].
Qed.

Lemma vertical_skip s length threshold :
  (Z.of_nat (height (vis s)) < length ∨ length < 1)%Z →
  vertical_sum_threshold length threshold s = (Ok tt, s).
Proof.
  intros Hl. rewrite vertical_unfold.
  destruct (Z.ltb_spec (Z.of_nat (height (vis s))) length); [done|].
  destruct (Z.eqb_spec length 1); [lia|].
  destruct (Z.ltb_spec 1 length); [lia|done].
Qed.

Lemma wf_with_mask s m :
  wf_self s → wf m → height m = height (vis s) → width m = width (vis s) →
  wf_self (with_mask s m) ∧ same_but_mask s (with_mask s m).
Proof.
  intros (Hv & _ & _) Hm Hh Hw. split; [|by repeat split].
  split; [done|]. split; [done|]. by split.
Qed.

Lemma same_but_mask_refl s : same_but_mask s s.
Proof. by repeat split. Qed.

Lemma returns_wf_single threshold s :
  wf_self s →
  ∃ s', single_sample_pass (height (vis s)) (width (vis s)) threshold s
        = (Ok tt, s') ∧ wf_self s' ∧ same_but_mask s s'.
Proof.
  intros Hwf.
  destruct (single_sample_pass_ok threshold s Hwf) as (s' & H & Hwf' & Hs & _).
  eauto.
Qed.

Lemma returns_wf_horizontal length threshold :
  returns_wf (horizontal_sum_threshold length threshold).
Proof.
  intros s Hwf.
  destruct (Z_lt_le_dec (Z.of_nat (width (vis s))) length) as [Hgt|Hle].
  { rewrite horizontal_skip by lia. eauto using same_but_mask_refl. }
  destruct (Z_lt_le_dec length 1) as [Hlt|Hge].
  { rewrite horizontal_skip by lia. eauto using same_but_mask_refl. }
  destruct (Z.eq_dec length 1%Z) as [->|Hne].
  { rewrite horizontal_single_ok by (done || lia).
    by apply returns_wf_single. }
  rewrite horizontal_scan_ok by (done || lia).
  eexists. split; [done|].
  pose proof Hwf as (Hv & Hm & Hh & Hw).
  destruct (h_scan_shape s length threshold
              (xrange (Z.of_nat (height (vis s)))) (vis_mask s))
    as (? & ? & ?); [done | apply xrange_bound | done..|].
  by apply wf_with_mask.
Qed.

Lemma returns_wf_vertical length threshold :
  returns_wf (vertical_sum_threshold length threshold).
Proof.
  intros s Hwf.
  destruct (Z_lt_le_dec (Z.of_nat (height (vis s))) length) as [Hgt|Hle].
  { rewrite vertical_skip by lia. eauto using same_but_mask_refl. }
  destruct (Z_lt_le_dec length 1) as [Hlt|Hge].
  { rewrite vertical_skip by lia. eauto using same_but_mask_refl. }
  destruct (Z.eq_dec length 1%Z) as [->|Hne].
  { rewrite vertical_single_ok by (done || lia).
    by apply returns_wf_single. }
  rewrite vertical_scan_ok by (done || lia).
  eexists. split; [done|].
  pose proof Hwf as (Hv & Hm & Hh & Hw).
  destruct (v_scan_shape s length threshold
              (xrange (Z.of_nat (width (vis s)))) (vis_mask s))
    as (? & ? & ?); [done..|].
  by apply wf_with_mask.
Qed.

Lemma same_but_mask_trans s1 s2 s3 :
  same_but_mask s1 s2 → same_but_mask s2 s3 → same_but_mask s1 s3.
Proof. intros (?&?&?&?) (?&?&?&?). repeat split; congruence. Qed.

Lemma returns_wf_bind (m : M unit) (k : M unit) :
  returns_wf m → returns_wf k → returns_wf (m ;;; k).
Proof.
  intros Hm Hk s Hwf.
  destruct (Hm s Hwf) as (s1 & H1 & Hwf1 & Hs1).
  destruct (Hk s1 Hwf1) as (s2 & H2 & Hwf2 & Hs2).
  exists s2. erewrite bind_Ok by exact H1.
  eauto using same_but_mask_trans.
Qed.

Lemma returns_wf_zip_passes factor ls ts :
  returns_wf (zip_passes factor ls ts).
Proof.
  revert ts. induction ls as [|l ls IH]; intros [|t ts]; simpl;
    try (intros s Hwf; exists s; split; [done|];
         split; [done | apply same_but_mask_refl]).
  apply returns_wf_bind; [apply returns_wf_horizontal|].
  apply returns_wf_bind; [apply returns_wf_vertical | apply IH].
Qed.

Lemma returns_wf_execute_threshold factor :
  returns_wf (execute_threshold factor).
Proof.
  intros s Hwf. unfold execute_threshold.
  by apply returns_wf_zip_passes.
Qed.

(** ** Properties of the specification *)

Lemma Qgt_bool_lt (a b : Q) : Qgt_bool a b = true ↔ (b < a)%Q.
Proof.
  unfold Qgt_bool. rewrite negb_true_iff.
  split.
  - intros H. apply Qnot_le_lt. intros Hle.
    apply Qle_bool_iff in Hle. congruence.
  - intros H. destruct (Qle_bool a b) eqn:E; [|done].
    apply Qle_bool_iff in E. exfalso. by eapply Qlt_not_le.
Qed.

Lemma pass_skip ax s length threshold :
  (Z.of_nat (extent ax (vis s)) < length)%Z →
  sum_threshold_pass ax length threshold s = (Ok tt, s).
Proof.
  intros Hl. destruct ax; simpl in *.
  - apply horizontal_skip. by left.
  - apply vertical_skip. by left.
Qed.

(** C8. If [length] exceeds the extent of the lines along the scanned axis
    (the width for [horizontal_sum_threshold], the height for
    [vertical_sum_threshold]) the call returns without an error and leaves
    the whole object, mask and visibilities, as it was. *)
Theorem oversized_length_is_noop (ax : axis) (s : SumThreshold) (length : Z)
  (threshold : Q) :
  (Z.of_nat (extent ax (vis s)) < length)%Z →
  sum_threshold_pass ax length threshold s = (Ok tt, s).
Proof. apply pass_skip. Qed.

Lemma oversized_length_is_noop_witness :
  (Z.of_nat (extent Horizontal (vis scenario)) < 9)%Z
  ∧ sum_threshold_pass Horizontal 9 3%Q scenario = (Ok tt, scenario).
Proof.
  split; [reflexivity|].
  apply (oversized_length_is_noop Horizontal scenario 9 3%Q). reflexivity.
Defined.

(** C5. The mask only grows: after any sequence of calls of
    [horizontal_sum_threshold], [vertical_sum_threshold] and
    [execute_threshold], from any object, every position that was flagged
    before is still flagged. *)
Theorem mask_only_grows (cs : list call) (s : SumThreshold) (y x : nat) :
  getitem (vis_mask s) y x = Some true →
  getitem (vis_mask (run_calls cs s).2) y x = Some true.
Proof.
  intros H. by apply (evolves_run_calls cs s).
Qed.

Lemma mask_only_grows_witness :
  getitem (vis_mask preflagged) 0 1 = Some true
  ∧ getitem
      (vis_mask
         (run_calls [CallHorizontal 2 3%Q; CallVertical 1 5%Q;
                     CallExecuteThreshold 1%Q] preflagged).2) 0 1
    = Some true.
Proof.
  split; [reflexivity|].
  apply (mask_only_grows
           [CallHorizontal 2 3%Q; CallVertical 1 5%Q; CallExecuteThreshold 1%Q]
           preflagged 0 1).
  reflexivity.
Defined.

(** C4. A pass with [length == 1] returns; a position flagged before it
    stays flagged, and a position not flagged before it is flagged by it
    exactly when its sample is strictly above the threshold.  On the row
    [1,1,1,1,9,1,1,1] with no flags, [length] 1 and threshold 5 flag
    index 4 and nothing else. *)
Theorem single_sample_pass_flags (ax : axis) (s : SumThreshold) (threshold : Q)
  (y x : nat) :
  wf_self s → y < height (vis s) → x < width (vis s) →
  let r := sum_threshold_pass ax 1 threshold s in
  r.1 = Ok tt
  ∧ (getitem (vis_mask s) y x = Some true →
     getitem (vis_mask r.2) y x = Some true)
  ∧ (getitem (vis_mask s) y x = Some false →
     (getitem (vis_mask r.2) y x = Some true
      ↔ (threshold < cell 0%Q (vis s) y x)%Q))
  ∧ rows (vis_mask (sum_threshold_pass Horizontal 1 5%Q scenario).2)
    = [[false; false; false; false; true; false; false; false]].
Proof.
  intros Hwf Hy Hx r.
  assert (r = single_sample_pass (height (vis s)) (width (vis s)) threshold s)
    as Hr.
  { subst r. destruct ax; simpl.
    - apply horizontal_single_ok; [done | lia].
    - apply vertical_single_ok; [done | lia]. }
  destruct (single_sample_pass_ok threshold s Hwf) as (s' & H & _ & _ & Hget).
  rewrite Hr, H. simpl. split; [done|].
  rewrite Hget. split; [|split].
  - by intros ->.
  - intros ->. simpl. unfold above. rewrite <- Qgt_bool_lt.
    split; [by intros [= ->] | by intros ->].
  - reflexivity.
Qed.

Lemma scenario_wf : wf_self scenario.
Proof.
  repeat split; simpl; repeat constructor.
Qed.

Lemma single_sample_pass_flags_witness :
  let r := sum_threshold_pass Horizontal 1 5%Q scenario in
  r.1 = Ok tt
  ∧ (getitem (vis_mask scenario) 0 4 = Some true →
     getitem (vis_mask r.2) 0 4 = Some true)
  ∧ (getitem (vis_mask scenario) 0 4 = Some false →
     (getitem (vis_mask r.2) 0 4 = Some true
      ↔ (5 < cell 0%Q (vis scenario) 0 4)%Q))
  ∧ rows (vis_mask (sum_threshold_pass Horizontal 1 5%Q scenario).2)
    = [[false; false; false; false; true; false; false; false]].
Proof.
  apply (single_sample_pass_flags Horizontal scenario 5%Q 0 4).
  - repeat split; simpl; repeat constructor.
  - simpl. lia.
  - simpl. lia.
Defined.

(** C2. On the row [1,1,1,1,9,1,1,1] with no flags, the horizontal pass
    with [length] 2 and threshold 3 returns with the flags
    [F,F,F,F,T,T,F,F]: indices 4 and 5, not the indices 3 and 4 of the
    window that holds the outlier first. *)
Theorem scenario_B_flags_4_and_5 :
  sum_threshold_pass Horizontal 2 3%Q scenario
  = (Ok tt,
     with_mask scenario
       (row_array [false; false; false; false; true; true; false; false]))
  ∧ rows (vis_mask (sum_threshold_pass Horizontal 2 3%Q scenario).2)
    ≠ [[false; false; false; true; true; false; false; false]].
Proof. split; [reflexivity | discriminate]. Qed.

(** C1. On the row [1,2] with no flags and [length] 2, the first window
    tested has left edge 0 and is tested with the running sum 2 and count 2,
    while the unflagged samples of the window [0, 2) sum to 3: the priming
    loop leaves [right] at [length - 2], so the sample at that index is added
    a second time and the sample at [left + length - 1] is not part of the
    sum.  The second test, at left edge 1, is one of a window that ends
    past the line. *)
Theorem running_sum_is_not_the_window_sum :
  (h_line_tested 2 2 0%Q 0 two_samples).1
  = Ok [(0, 2%Q, 2%Z); (1, 3%Q, 2%Z)]
  ∧ window_sum [1%Q; 2%Q] [false; false] 0 2 = 3%Q
  ∧ window_count [false; false] 0 2 = 2%Z
  ∧ (h_prime 0 2 0%Q 0%Z 0 two_samples).1 = Ok (1%Q, 1%Z, 0).
Proof. repeat split. Qed.

(** C3. Two runs of the horizontal pass with [length] 2 and threshold 3.
    On the row [1,1,1,1,9,1,1,1] index 3 lies in the window [3, 5), which is
    inside the line and has the mean 5, and is not flagged.  On the row
    [7,0,0] index 2 is flagged although the only window inside the line
    that holds it, [1, 3), has the mean 0. *)
Theorem flags_do_not_follow_the_windows :
  window_exceeds [1%Q; 1%Q; 1%Q; 1%Q; 9%Q; 1%Q; 1%Q; 1%Q] (replicate 8 false)
                 3 2 3%Q = true
  ∧ getitem (vis_mask (sum_threshold_pass Horizontal 2 3%Q scenario).2) 0 3
    = Some false
  ∧ getitem (vis_mask (sum_threshold_pass Horizontal 2 3%Q outlier_first).2) 0 2
    = Some true
  ∧ window_exceeds [7%Q; 0%Q; 0%Q] [false; false; false] 1 2 3%Q = false
  ∧ window_exceeds [7%Q; 0%Q; 0%Q] [false; false; false] 2 2 3%Q = false.
Proof. repeat split. Qed.

(** C7. For arrays of one shape and a positive sensitivity, the threshold
    passes of [execute] all return.  Constructed with [min_connected > 1],
    [execute] then raises [NotImplementedError], and the object it leaves
    is the one the passes produced; constructed with [min_connected <= 1],
    which [__init__] clamps to 1, [execute] returns with that object and
    raises nothing. *)
Theorem execute_min_connected (v : ndarray Q) (m : ndarray bool)
  (ls : list Z) (ts : list Q) (min_connected : Z) (sensitivity : Q) :
  wf v → wf m → same_shape m v → (0 < sensitivity)%Q →
  let self := init v m ls ts min_connected in
  let passes := execute_threshold sensitivity self in
  passes.1 = Ok tt
  ∧ ((1 < min_connected)%Z →
     execute sensitivity self = (Raise NotImplementedError, passes.2))
  ∧ ((min_connected <= 1)%Z → execute sensitivity self = (Ok tt, passes.2)).
Proof.
  intros Hv Hm Hs Hpos self passes.
  assert (wf_self self) as Hwf by done.
  destruct (returns_wf_execute_threshold sensitivity self Hwf)
    as (s' & H & _ & (_ & _ & _ & Hmc)).
  subst passes. rewrite H. simpl. split; [done|].
  assert (CombinatorialThreshold_execute sensitivity self = (Ok tt, s')) as Hc.
  { unfold CombinatorialThreshold_execute.
    destruct (Qle_bool sensitivity 0) eqn:E; [|done].
    apply Qle_bool_iff in E. exfalso. by eapply Qlt_not_le. }
  unfold execute. rewrite (bind_Ok _ _ _ _ _ Hc). rewrite Hmc. simpl.
  split; intros Hlt.
  - destruct (Z.ltb_spec 1 (Z.max 1 min_connected)); [done | lia].
  - destruct (Z.ltb_spec 1 (Z.max 1 min_connected)); [lia | done].
Qed.

Lemma execute_min_connected_witness :
  let self := init scenario_vis scenario_mask [1%Z; 2%Z] [5%Q; 3%Q] 2 in
  let passes := execute_threshold 1%Q self in
  passes.1 = Ok tt
  ∧ ((1 < 2)%Z → execute 1%Q self = (Raise NotImplementedError, passes.2))
  ∧ ((2 <= 1)%Z → execute 1%Q self = (Ok tt, passes.2)).
Proof.
  apply (execute_min_connected scenario_vis scenario_mask [1%Z; 2%Z]
           [5%Q; 3%Q] 2 1%Q).
  - split; simpl; repeat constructor.
  - split; simpl; repeat constructor.
  - split; reflexivity.
  - reflexivity.
Defined.

(** ** Transposition *)

Section Transpose.
Context {A : Type} (d : A).
Implicit Types (a b : ndarray A).

Lemma wf_transpose a : wf (transpose d a).
Proof.
  split; simpl.
  - by rewrite length_map, length_seq.
  - apply list.Forall_forall. intros r Hr.
    apply list_elem_of_fmap in Hr as (x & -> & _).
    by rewrite length_map, length_seq.
Qed.

Lemma getitem_transpose a x y :
  wf a → getitem (transpose d a) x y = getitem a y x.
Proof.
  intros Hwf. unfold getitem at 1. simpl. rewrite list_lookup_fmap.
  destruct (decide (x < width a)) as [Hx|Hx].
  - rewrite lookup_seq_lt by done. simpl. rewrite list_lookup_fmap.
    destruct (decide (y < height a)) as [Hy|Hy].
    + rewrite lookup_seq_lt by done. simpl.
      by destruct (getitem_in_range a y x Hwf Hy Hx) as [v ->].
    + rewrite lookup_seq_ge by lia. simpl.
      symmetry. apply getitem_None; [done | lia].
  - rewrite lookup_seq_ge by lia. simpl.
    symmetry. apply getitem_None; [done | lia].
Qed.

Lemma getitem_row a y x : getitem a y x = row a y !! x.
Proof. unfold getitem, row. by destruct (rows a !! y). Qed.

Lemma getitem_col a y x :
  wf a → x < width a → getitem a y x = col d a x !! y.
Proof.
  intros Hwf Hx. unfold getitem, col. rewrite list_lookup_fmap.
  destruct (rows a !! y) as [r|] eqn:Hr; simpl; [|done].
  destruct (lookup_lt_is_Some_2 r x) as [v ->]; [|done].
  by rewrite (wf_row a y r Hwf Hr).
Qed.

Lemma row_transpose a x :
  wf a → x < width a → row (transpose d a) x = col d a x.
Proof.
  intros Hwf Hx. apply list_eq. intros y.
  rewrite <- getitem_row, getitem_transpose by done.
  by apply getitem_col.
Qed.

Lemma transpose_ext a b :
  wf a → wf b → height b = width a → width b = height a →
  (∀ y x, y < height a → x < width a → getitem a y x = getitem b x y) →
  a = transpose d b.
Proof.
  intros Ha Hb Hh Hw Hget. apply ndarray_ext; simpl; try done.
  - apply wf_transpose.
  - intros y x. rewrite getitem_transpose by done.
    destruct (decide (y < height a ∧ x < width a)) as [[Hy Hx]|Hn].
    + by apply Hget.
    + rewrite !getitem_None; (done || lia).
Qed.
End Transpose.

Lemma wf_transpose_self s : wf_self s → wf_self (transpose_self s).
Proof.
  intros (Hv & Hm & Hh & Hw).
  split; [apply wf_transpose|]. split; [apply wf_transpose|].
  by split; simpl.
Qed.

Lemma above_transpose threshold s x y :
  wf_self s → above threshold (transpose_self s) x y = above threshold s y x.
Proof.
  intros (Hv & _). unfold above, cell. simpl.
  by rewrite getitem_transpose.
Qed.

(** C10. On arrays of one shape, [vertical_sum_threshold] returns, and the
    mask it leaves is the transpose of the mask [horizontal_sum_threshold]
    leaves, for the same [length] and threshold, on the transposed
    visibilities and mask. *)
Theorem vertical_is_transposed_horizontal (s : SumThreshold) (length : Z)
  (threshold : Q) :
  wf_self s →
  let v := vertical_sum_threshold length threshold s in
  let h := horizontal_sum_threshold length threshold (transpose_self s) in
  v.1 = Ok tt ∧ h.1 = Ok tt
  ∧ vis_mask v.2 = transpose false (vis_mask h.2).
Proof.
  intros Hwf v h. subst v h.
  pose proof (wf_transpose_self s Hwf) as Hwft.
  pose proof Hwf as (Hv & Hm & Hh & Hw).
  destruct (decide (Z.of_nat (height (vis s)) < length ∨ length < 1)%Z)
    as [Hskip|Hrun].
  { rewrite vertical_skip, horizontal_skip by done. simpl.
    split; [done|]. split; [done|].
    apply transpose_ext; simpl; try done; [apply wf_transpose|].
    intros y x _ _. by rewrite getitem_transpose. }
  destruct (decide (length = 1%Z)) as [->|Hne].
  { rewrite vertical_single_ok, horizontal_single_ok by (done || simpl; lia).
    destruct (single_sample_pass_ok threshold s Hwf)
      as (sv & -> & Hwfv & (Hvv & _) & Hgv).
    destruct (single_sample_pass_ok threshold (transpose_self s) Hwft)
      as (sh & -> & Hwfh & (Hvh & _) & Hgh).
    simpl. split; [done|]. split; [done|].
    destruct Hwfv as (_ & Hmv & Hhv & Hwv), Hwfh as (_ & Hmh & Hhh & Hwh).
    rewrite Hvv in Hhv, Hwv. rewrite Hvh in Hhh, Hwh. simpl in Hhh, Hwh.
    apply transpose_ext; try done; try lia.
    intros y x _ _. rewrite Hgv, Hgh, above_transpose by done. simpl.
    by rewrite getitem_transpose. }
  rewrite vertical_scan_ok, horizontal_scan_ok by (done || simpl; lia).
  simpl. split; [done|]. split; [done|].
  destruct (v_scan_shape s length threshold
              (xrange (Z.of_nat (width (vis s)))) (vis_mask s))
    as (Hwv & Hhv & Hwdv); [done..|].
  destruct (h_scan_shape (transpose_self s) length threshold
              (xrange (Z.of_nat (width (vis s))))
              (transpose false (vis_mask s)))
    as (Hwh & Hhh & Hwdh); [done | apply xrange_bound | apply wf_transpose
                           | simpl; lia..|].
  simpl in Hhh, Hwdh.
  apply transpose_ext; try done; try lia.
  intros y x Hy Hx. rewrite Hwdv in Hx.
  rewrite (getitem_col false) by (done || lia).
  rewrite v_scan_col;
    [|done | apply NoDup_xrange | apply xrange_bound | done..].
  rewrite decide_True by (by apply elem_of_xrange).
  rewrite getitem_row.
  rewrite h_scan_row;
    [|done | apply NoDup_xrange | apply xrange_bound | apply wf_transpose
     | simpl; lia..].
  rewrite decide_True by (by apply elem_of_xrange).
  simpl. by rewrite !row_transpose by (done || lia).
Qed.

(** ** Lines of a pass *)

Lemma pass_commits ax s length threshold :
  (1 < length <= Z.of_nat (extent ax (vis s)))%Z →
  sum_threshold_pass ax length threshold s
  = match scan_lines ax (height (vis s)) (width (vis s)) length threshold
            (vis_mask s) s with
    | (Ok tmp_mask, s') => (Ok tt, with_mask s' tmp_mask)
    | (Raise e, s') => (Raise e, s')
    end.
Proof.
  intros Hl. destruct ax; simpl in *.
  - rewrite horizontal_unfold.
    destruct (Z.ltb_spec (Z.of_nat (width (vis s))) length); [lia|].
    destruct (Z.eqb_spec length 1); [lia|].
    destruct (Z.ltb_spec 1 length); [|lia].
    unfold bind at 1. simpl. unfold bind.
    by destruct (h_lines _ _ _ _ _ _) as [[tmp|e] s'].
  - rewrite vertical_unfold.
    destruct (Z.ltb_spec (Z.of_nat (height (vis s))) length); [lia|].
    destruct (Z.eqb_spec length 1); [lia|].
    destruct (Z.ltb_spec 1 length); [|lia].
    unfold bind at 1. simpl. unfold bind.
    by destruct (v_lines _ _ _ _ _ _) as [[tmp|e] s'].
Qed.

Lemma scan_lines_readonly ax h w length threshold tmp s :
  (scan_lines ax h w length threshold tmp s).2 = s.
Proof.
  destruct ax; simpl; symmetry.
  - apply readonly_h_lines.
  - apply readonly_v_lines.
Qed.

(** Line [i] of the mask a pass with [length > 1] leaves is the scan of
    line [i] of the visibilities under line [i] of the mask it found. *)
Lemma pass_line ax s length threshold i :
  wf_self s → (1 < length <= Z.of_nat (extent ax (vis s)))%Z →
  i < line_count ax (vis s) →
  line false ax (vis_mask (sum_threshold_pass ax length threshold s).2) i
  = scan_line (line 0%Q ax (vis s) i) (line false ax (vis_mask s) i)
              length threshold (line false ax (vis_mask s) i).
Proof.
  intros Hwf Hl Hi. pose proof Hwf as (Hv & Hm & Hh & Hw).
  destruct ax; simpl in *.
  - rewrite horizontal_scan_ok by done. simpl.
    rewrite h_scan_row;
      [|done | apply NoDup_xrange | apply xrange_bound | done..].
    by rewrite decide_True by (by apply elem_of_xrange).
  - rewrite vertical_scan_ok by done. simpl.
    rewrite v_scan_col;
      [|done | apply NoDup_xrange | apply xrange_bound | done..].
    by rewrite decide_True by (by apply elem_of_xrange).
Qed.

Lemma line_extent {A} (d : A) ax (a : ndarray A) i :
  wf a → i < line_count ax a → length (line d ax a i) = extent ax a.
Proof.
  intros Hwf Hi. destruct ax; simpl in *.
  - by apply row_length.
  - by apply col_length.
Qed.

(** C9. Snapshot, then commit.  In a pass with [length > 1] the loop over
    the lines leaves the object, and with it the live mask, as it found it,
    whatever pending mask it works on; the pass then commits the pending
    mask the loop returns.  Line [i] of the committed mask is the scan of
    line [i] of the visibilities under line [i] of the snapshot, so the
    flags the pass writes take no part in its sums, and two runs whose
    visibilities and masks agree on line [i] leave masks that agree on
    line [i]. *)
Theorem snapshot_then_commit (ax : axis) (s1 s2 : SumThreshold) (length : Z)
  (threshold : Q) (i : nat) :
  wf_self s1 → wf_self s2 → (1 < length)%Z →
  i < line_count ax (vis s1) → i < line_count ax (vis s2) →
  line 0%Q ax (vis s1) i = line 0%Q ax (vis s2) i →
  line false ax (vis_mask s1) i = line false ax (vis_mask s2) i →
  (∀ tmp_mask,
     (scan_lines ax (height (vis s1)) (width (vis s1)) length threshold
                 tmp_mask s1).2 = s1)
  ∧ ((length <= Z.of_nat (extent ax (vis s1)))%Z →
     sum_threshold_pass ax length threshold s1
     = match scan_lines ax (height (vis s1)) (width (vis s1)) length
               threshold (vis_mask s1) s1 with
       | (Ok tmp_mask, s') => (Ok tt, with_mask s' tmp_mask)
       | (Raise e, s') => (Raise e, s')
       end
     ∧ line false ax (vis_mask (sum_threshold_pass ax length threshold s1).2) i
       = scan_line (line 0%Q ax (vis s1) i) (line false ax (vis_mask s1) i)
                   length threshold (line false ax (vis_mask s1) i))
  ∧ line false ax (vis_mask (sum_threshold_pass ax length threshold s1).2) i
    = line false ax (vis_mask (sum_threshold_pass ax length threshold s2).2) i.
Proof.
  intros Hwf1 Hwf2 Hl Hi1 Hi2 Hvis Hmask.
  split; [intros tmp; apply scan_lines_readonly|].
  split.
  { intros Hle. split; [by apply pass_commits | by apply pass_line]. }
  assert (extent ax (vis s1) = extent ax (vis s2)) as Hext.
  { rewrite <- (line_extent 0%Q ax (vis s1) i) by (done || apply Hwf1).
    rewrite <- (line_extent 0%Q ax (vis s2) i) by (done || apply Hwf2).
    by rewrite Hvis. }
  destruct (Z_lt_le_dec (Z.of_nat (extent ax (vis s1))) length) as [Hgt|Hle].
  - rewrite !pass_skip by lia. done.
  - rewrite !pass_line by (done || lia). by rewrite Hvis, Hmask.
Qed.

Lemma snapshot_then_commit_witness :
  (∀ tmp_mask,
     (scan_lines Horizontal (height (vis two_rows)) (width (vis two_rows)) 2
                 3%Q tmp_mask two_rows).2 = two_rows)
  ∧ ((2 <= Z.of_nat (extent Horizontal (vis two_rows)))%Z →
     sum_threshold_pass Horizontal 2 3%Q two_rows
     = match scan_lines Horizontal (height (vis two_rows))
               (width (vis two_rows)) 2 3%Q (vis_mask two_rows) two_rows with
       | (Ok tmp_mask, s') => (Ok tt, with_mask s' tmp_mask)
       | (Raise e, s') => (Raise e, s')
       end
     ∧ line false Horizontal
            (vis_mask (sum_threshold_pass Horizontal 2 3%Q two_rows).2) 0
       = scan_line (line 0%Q Horizontal (vis two_rows) 0)
                   (line false Horizontal (vis_mask two_rows) 0) 2 3%Q
                   (line false Horizontal (vis_mask two_rows) 0))
  ∧ line false Horizontal
         (vis_mask (sum_threshold_pass Horizontal 2 3%Q two_rows).2) 0
    = line false Horizontal
           (vis_mask (sum_threshold_pass Horizontal 2 3%Q two_rows').2) 0.
Proof.
  apply (snapshot_then_commit Horizontal two_rows two_rows' 2 3%Q 0).
  - repeat split; simpl; repeat constructor.
  - repeat split; simpl; repeat constructor.
  - reflexivity.
  - simpl. lia.
  - simpl. lia.
  - reflexivity.
  - reflexivity.
Defined.

Lemma vertical_is_transposed_horizontal_witness :
  let v := vertical_sum_threshold 2 3%Q two_rows' in
  let h := horizontal_sum_threshold 2 3%Q (transpose_self two_rows') in
  v.1 = Ok tt ∧ h.1 = Ok tt
  ∧ vis_mask v.2 = transpose false (vis_mask h.2).
Proof.
  apply (vertical_is_transposed_horizontal two_rows' 2 3%Q).
  repeat split; simpl; repeat constructor.
Defined.

(** ** Running the schedule again *)

Lemma flagged_on_covered threshold s s' :
  flagged_on (λ _ _, true) threshold s s' → covered threshold s'.
Proof.
  intros F y x Ha Hf. rewrite (flagged_on_above _ _ _ _ F) in Ha.
  destruct F as (_ & _ & Hget). rewrite Hget in Hf. simpl in Hf.
  rewrite Ha in Hf. destruct (getitem (vis_mask s) y x) as [b|]; [|done].
  simpl in Hf. by rewrite orb_true_r in Hf.
Qed.

Lemma flagged_on_fixed threshold s s' :
  wf_self s → covered threshold s →
  flagged_on (λ _ _, true) threshold s s' → s' = s.
Proof.
  intros Hwf Hc (Hwf' & (Hv & Hl & Ht & Hmc) & Hget).
  assert (vis_mask s' = vis_mask s) as Hm.
  { destruct Hwf as (_ & Hm & Hh & Hw), Hwf' as (_ & Hm' & Hh' & Hw').
    apply ndarray_ext; try done; try congruence.
    intros y x. rewrite Hget.
    destruct (getitem (vis_mask s) y x) as [[]|] eqn:Hb; simpl; try done.
    destruct (above threshold s y x) eqn:Ha; [|done].
    exfalso. by eapply Hc. }
  destruct s, s'. simpl in *. by subst.
Qed.

Lemma covered_evolves threshold s s' :
  evolves s s' → wf_self s → wf_self s' → covered threshold s →
  covered threshold s'.
Proof.
  intros (Hv & _ & _ & _ & Hle) Hwf Hwf' Hc y x Ha Hf.
  unfold above in Ha. rewrite Hv in Ha.
  destruct Hwf as (_ & Hm & Hh & Hw), Hwf' as (_ & Hm' & Hh' & Hw').
  apply getitem_range in Hf as Hr; [|done]. destruct Hr as [Hy Hx].
  rewrite Hh', Hv, <- Hh in Hy. rewrite Hw', Hv, <- Hw in Hx.
  destruct (getitem_in_range (vis_mask s) y x Hm Hy Hx) as [[] Hb].
  - apply Hle in Hb. congruence.
  - by eapply Hc.
Qed.

Lemma all_covered_evolves factor ls ts s s' :
  evolves s s' → wf_self s → wf_self s' → all_covered factor ls ts s →
  all_covered factor ls ts s'.
Proof.
  intros He Hwf Hwf'. revert ts.
  induction ls as [|l ls IH]; intros [|t ts]; simpl; try done.
  intros [Hc Hrest]. split; [|by apply IH].
  intros Hl. by eapply covered_evolves; [| | |apply Hc].
Qed.

(** A pass with [length <= 1] on a well-formed object. *)
Lemma short_pass ax s length threshold :
  wf_self s → (length <= 1)%Z →
  ∃ s', sum_threshold_pass ax length threshold s = (Ok tt, s')
        ∧ wf_self s' ∧ evolves s s'
        ∧ (covered threshold s → s' = s)
        ∧ (length = 1%Z → 1 ≤ extent ax (vis s) → covered threshold s').
Proof.
  intros Hwf Hl.
  destruct (decide (length = 1%Z ∧ 1 ≤ extent ax (vis s))) as [[-> He]|Hn].
  - destruct (single_sample_pass_ok threshold s Hwf) as (s' & H & F).
    exists s'.
    assert (sum_threshold_pass ax 1 threshold s = (Ok tt, s')) as Hp.
    { rewrite <- H. destruct ax; simpl in *;
        [by apply horizontal_single_ok | by apply vertical_single_ok]. }
    split; [done|]. split; [apply F|]. split.
    { assert (evolves s (sum_threshold_pass ax 1 threshold s).2) as E
        by (destruct ax; [apply evolves_horizontal | apply evolves_vertical]).
      by rewrite Hp in E. }
    split.
    + intros Hc. by eapply flagged_on_fixed.
    + intros _ _. by eapply flagged_on_covered.
  - exists s.
    assert (sum_threshold_pass ax length threshold s = (Ok tt, s)) as Hp.
    { destruct ax; simpl in *;
        [apply horizontal_skip | apply vertical_skip]; lia. }
    split; [done|]. split; [done|]. split; [reflexivity|].
    split; [done|]. intros -> He. exfalso. apply Hn. done.
Qed.

Lemma covered_no_cells threshold s :
  wf_self s → height (vis s) = 0 ∨ width (vis s) = 0 → covered threshold s.
Proof.
  intros (_ & Hm & Hh & Hw) H0 y x _ Hf.
  apply getitem_range in Hf; [lia | done].
Qed.

Lemma zip_passes_covers factor ls ts s :
  wf_self s → Forall (λ l, (l <= 1)%Z) ls →
  ∃ s', zip_passes factor ls ts s = (Ok tt, s')
        ∧ wf_self s' ∧ evolves s s' ∧ all_covered factor ls ts s'.
Proof.
  revert ts s. induction ls as [|l ls IH]; intros [|t ts] s Hwf Hls; simpl;
    try (exists s; split; [done|]; split; [done|]; split; [reflexivity|done]).
  apply Forall_cons_1 in Hls as [Hl Hls].
  destruct (short_pass Horizontal s l (factor * t)%Q Hwf Hl)
    as (s1 & H1 & Hwf1 & E1 & _ & _).
  destruct (short_pass Vertical s1 l (factor * t)%Q Hwf1 Hl)
    as (s2 & H2 & Hwf2 & E2 & _ & C2).
  destruct (IH ts s2 Hwf2 Hls) as (s3 & H3 & Hwf3 & E3 & C3).
  simpl in H1, H2.
  exists s3. rewrite (bind_Ok _ _ _ _ _ H1), (bind_Ok _ _ _ _ _ H2).
  split; [done|]. split; [done|].
  split; [by etrans; [|etrans]|].
  split; [|done]. intros ->.
  eapply covered_evolves; [exact E3 | done | done |].
  destruct (decide (1 ≤ extent Vertical (vis s1))) as [He|He].
  - by apply C2.
  - apply covered_no_cells; [done|]. left.
    destruct E2 as (-> & _). simpl in He. lia.
Qed.

Lemma zip_passes_fixed factor ls ts s :
  wf_self s → Forall (λ l, (l <= 1)%Z) ls → all_covered factor ls ts s →
  zip_passes factor ls ts s = (Ok tt, s).
Proof.
  revert ts. induction ls as [|l ls IH]; intros [|t ts] Hwf Hls Hc; simpl;
    try done.
  apply Forall_cons_1 in Hls as [Hl Hls]. destruct Hc as [Hc Hrest].
  assert (∀ ax, sum_threshold_pass ax l (factor * t)%Q s = (Ok tt, s)) as Hp.
  { intros ax.
    destruct (short_pass ax s l (factor * t)%Q Hwf Hl)
      as (s1 & H1 & _ & _ & Hfix & _).
    destruct (decide (l = 1%Z)) as [->|Hne].
    - rewrite H1. f_equal. by apply Hfix, Hc.
    - destruct ax; simpl; [apply horizontal_skip | apply vertical_skip]; lia. }
  pose proof (Hp Horizontal) as H1. pose proof (Hp Vertical) as H2.
  simpl in H1, H2.
  rewrite (bind_Ok _ _ _ _ _ H1), (bind_Ok _ _ _ _ _ H2).
  by apply IH.
Qed.

(** C6, as stated, fails.  On the row [0,0,13,0,0,5] with no flags and the
    schedule [(3, 4)], a first run with factor 1 flags indices 1 to 4 and
    leaves index 5 unflagged, and a second run on the mask of the first
    flags it: the samples the first run flagged no longer count in the means
    of the second, so the sample 5 is now above the threshold 4 on its
    own. *)
Lemma second_run_adds_flags :
  let first := execute_threshold 1%Q rerun in
  let second := execute_threshold 1%Q first.2 in
  first.1 = Ok tt ∧ second.1 = Ok tt
  ∧ rows (vis_mask first.2) = [[false; true; true; true; true; false]]
  ∧ rows (vis_mask second.2) = [[false; true; true; true; true; true]]
  ∧ second.2 ≠ first.2.
Proof. repeat split. discriminate. Qed.

(** C6, amended.  When no length of the schedule exceeds 1, a run of
    [execute_threshold] on a well-formed object returns, and a second run
    with the same factor on the object it leaves returns and changes
    nothing. *)
Theorem rerun_of_single_sample_schedule (s : SumThreshold) (factor : Q) :
  wf_self s → Forall (λ l, (l <= 1)%Z) (lengths s) →
  let first := execute_threshold factor s in
  first.1 = Ok tt ∧ execute_threshold factor first.2 = (Ok tt, first.2).
Proof.
  intros Hwf Hls first. subst first. unfold execute_threshold.
  destruct (zip_passes_covers factor (lengths s) (thresholds s) s Hwf Hls)
    as (s' & H & Hwf' & (_ & Hl & Ht & _) & Hc).
  rewrite H. simpl. split; [done|]. rewrite Hl, Ht.
  by apply zip_passes_fixed.
Qed.

Lemma rerun_of_single_sample_schedule_witness :
  let first := execute_threshold 1%Q preflagged_single in
  first.1 = Ok tt ∧ execute_threshold 1%Q first.2 = (Ok tt, first.2).
Proof.
  apply (rerun_of_single_sample_schedule preflagged_single 1%Q).
  - repeat split; simpl; repeat constructor.
  - repeat constructor; lia.
Defined.

(** ** The windows the code tests *)

Lemma window_sum_cons vl ml a m :
  (window_sum vl ml a (S m)
   == window_sum vl ml a 1 + window_sum vl ml (S a) m)%Q.
Proof. unfold window_sum. simpl. ring. Qed.

Lemma window_sum_snoc vl ml a m :
  (window_sum vl ml a (S m)
   == window_sum vl ml a m + window_sum vl ml (a + m) 1)%Q.
Proof.
  revert a. induction m as [|m IH]; intros a.
  - rewrite Nat.add_0_r. unfold window_sum. simpl. ring.
  - rewrite window_sum_cons, IH, (window_sum_cons vl ml a m).
    replace (S a + m) with (a + S m) by lia. ring.
Qed.

Lemma window_count_cons ml a m :
  window_count ml a (S m)
  = (window_count ml a 1 + window_count ml (S a) m)%Z.
Proof.
  unfold window_count. simpl. rewrite !filter_cons, filter_nil.
  destruct (decide _); simpl; lia.
Qed.

Lemma window_count_snoc ml a m :
  window_count ml a (S m)
  = (window_count ml a m + window_count ml (a + m) 1)%Z.
Proof.
  revert a. induction m as [|m IH]; intros a.
  - rewrite Nat.add_0_r. unfold window_count at 2. simpl. lia.
  - rewrite window_count_cons, IH, (window_count_cons ml a m).
    replace (S a + m) with (a + S m) by lia. lia.
Qed.

Lemma window_count_nonneg ml a m : (0 <= window_count ml a m)%Z.
Proof. unfold window_count. lia. Qed.

Section TestedWindows.
Variables (vl : list Q) (ml : list bool) (n : nat).
Hypothesis Hml : List.length ml = n.

Lemma line_add_window i acc :
  i < n →
  ((line_add vl ml i acc).1 == acc.1 + window_sum vl ml i 1)%Q
  ∧ (line_add vl ml i acc).2 = (acc.2 + window_count ml i 1)%Z.
Proof.
  intros Hi. destruct (lookup_lt_is_Some_2 ml i) as [b Hb]; [lia|].
  unfold line_add, window_sum, window_count. simpl.
  rewrite filter_cons, filter_nil, Hb. simpl.
  destruct b; simpl; (split; [ring | lia]).
Qed.

Lemma line_sub_window i acc :
  i < n →
  ((line_sub vl ml i acc).1 == acc.1 - window_sum vl ml i 1)%Q
  ∧ (line_sub vl ml i acc).2 = (acc.2 - window_count ml i 1)%Z.
Proof.
  intros Hi. destruct (lookup_lt_is_Some_2 ml i) as [b Hb]; [lia|].
  unfold line_sub, window_sum, window_count. simpl.
  rewrite filter_cons, filter_nil, Hb. simpl.
  destruct b; simpl; (split; [ring | lia]).
Qed.

Lemma line_prime_window m a acc hi :
  a + m ≤ n →
  ((line_prime vl ml (seq a m) acc hi).1.1
   == acc.1 + window_sum vl ml a m)%Q
  ∧ (line_prime vl ml (seq a m) acc hi).1.2
    = (acc.2 + window_count ml a m)%Z
  ∧ (line_prime vl ml (seq a m) acc hi).2
    = match m with 0 => hi | S _ => a + m - 1 end.
Proof.
  revert a acc hi. induction m as [|m IH]; intros a acc hi Ha.
  - simpl. unfold window_sum, window_count. simpl.
    split; [ring|]. split; [lia | done].
  - simpl line_prime.
    destruct (IH (S a) (line_add vl ml a acc) a) as (H1 & H2 & H3); [lia|].
    destruct (line_add_window a acc) as [A1 A2]; [lia|].
    rewrite H1, H2, H3, A1, A2, (window_sum_cons vl ml a m),
      (window_count_cons ml a m).
    split; [ring|]. split; [lia|]. destruct m; lia.
Qed.
End TestedWindows.

Lemma exceeds_Qeq sm sm' cnt threshold :
  (sm == sm')%Q → exceeds sm cnt threshold = exceeds sm' cnt threshold.
Proof. intros H. unfold exceeds, Qgt_bool. by rewrite H. Qed.

Section SlideFlags.
Variables (vl : list Q) (ml : list bool) (n : nat) (length : Z)
  (threshold : Q).
Hypothesis Hvl : List.length vl = n.
Hypothesis Hml : List.length ml = n.
Hypothesis Hlen : (1 < length)%Z.

Let m := Z.to_nat (length - 2).

Lemma line_slide_flags fuel acc lo hi pend x :
  hi = lo + m →
  (acc.1 == window_sum vl ml lo m + window_sum vl ml m 1)%Q →
  acc.2 = (window_count ml lo m + window_count ml m 1)%Z →
  hi ≤ n → n < hi + fuel → List.length pend = n →
  (line_slide vl ml length threshold fuel (acc, lo, hi, pend)).2 !! x
  = Some true
  ↔ pend !! x = Some true
    ∨ (x < n ∧ ∃ k, lo ≤ k ∧ k + m < n ∧ k ≤ x < k + Z.to_nat length
                   ∧ test_exceeds vl ml length threshold k = true).
Proof.
  revert acc lo hi pend.
  induction fuel as [|fuel IH]; intros acc lo hi pend Hhi Hs Hc Hle Hf Hp;
    [lia|].
  simpl. rewrite Hvl.
  destruct (Nat.ltb_spec hi n) as [Hlt|Hge].
  - unfold line_step.
    destruct (line_add_window vl ml n Hml hi acc Hlt) as [A1 A2].
    destruct (line_sub_window vl ml n Hml lo (line_add vl ml hi acc))
      as [B1 B2]; [lia|].
    assert (Z.to_nat (length - 1) = S m) as Hm1 by (subst m; lia).
    assert (exceeds (line_add vl ml hi acc).1 (line_add vl ml hi acc).2
                    threshold
            = test_exceeds vl ml length threshold lo) as Hex.
    { unfold test_exceeds, tested_sum, tested_count. fold m. rewrite Hm1.
      rewrite A2, Hc, (window_count_snoc ml lo m), <- Hhi.
      replace (window_count ml lo m + window_count ml m 1
               + window_count ml hi 1)%Z
        with (window_count ml lo m + window_count ml hi 1
              + window_count ml m 1)%Z by lia.
      apply exceeds_Qeq.
      rewrite A1, Hs, (window_sum_snoc vl ml lo m), <- Hhi. ring. }
    rewrite Hex.
    rewrite IH; [|lia| | |lia|lia|].
    + split.
      * intros [Hx|(Hx & k & Hk1 & Hk2 & Hk3 & Hk4)].
        -- destruct (test_exceeds vl ml length threshold lo) eqn:E;
             [|by left].
           rewrite fill_range_lookup in Hx.
           destruct (pend !! x) as [b|] eqn:Hb; [|done]. simpl in Hx.
           destruct ((lo <=? x) && (x <? lo + Z.to_nat length)) eqn:Hin.
           ++ right. apply andb_true_iff in Hin as [H1 H2].
              apply Nat.leb_le in H1. apply Nat.ltb_lt in H2.
              split; [apply lookup_lt_Some in Hb; lia|].
              exists lo. repeat split; (done || lia).
           ++ left. done.
        -- right. split; [done|]. exists k. repeat split; (done || lia).
      * intros [Hx|(Hx & k & Hk1 & Hk2 & Hk3 & Hk4)].
        -- left. destruct (test_exceeds vl ml length threshold lo); [|done].
           rewrite fill_range_lookup, Hx. simpl. by destruct (_ && _).
        -- destruct (decide (k = lo)) as [->|Hne].
           ++ left. rewrite Hk4, fill_range_lookup.
              destruct (lookup_lt_is_Some_2 pend x) as [b ->]; [lia|].
              simpl.
              destruct (Nat.leb_spec lo x); [|lia].
              destruct (Nat.ltb_spec x (lo + Z.to_nat length)); [done|lia].
           ++ right. split; [done|]. exists k. repeat split; (done || lia).
    + rewrite B1, A1, Hs.
      assert (window_sum vl ml lo m + window_sum vl ml hi 1
              == window_sum vl ml lo 1 + window_sum vl ml (lo + 1) m)%Q as E.
      { rewrite Hhi, <- window_sum_snoc, window_sum_cons.
        by rewrite Nat.add_1_r. }
      assert (window_sum vl ml lo m + window_sum vl ml m 1
              + window_sum vl ml hi 1 - window_sum vl ml lo 1
              == window_sum vl ml lo m + window_sum vl ml hi 1
                 + window_sum vl ml m 1 - window_sum vl ml lo 1)%Q as ->
          by ring.
      rewrite E. ring.
    + rewrite B2, A2, Hc.
      assert (window_count ml lo m + window_count ml hi 1
              = window_count ml lo 1 + window_count ml (lo + 1) m)%Z as E.
      { rewrite Hhi, <- window_count_snoc, window_count_cons.
        by rewrite Nat.add_1_r. }
      lia.
    + destruct (test_exceeds _ _ _ _ _); [by rewrite fill_range_length | done].
  - simpl. split; [by left|].
    intros [Hx|(Hx & k & Hk1 & Hk2 & _)]; [done | lia].
Qed.

Lemma scan_line_flags pend x :
  (length <= Z.of_nat n)%Z → List.length pend = n →
  scan_line vl ml length threshold pend !! x = Some true
  ↔ pend !! x = Some true
    ∨ (x < n ∧ ∃ k, (Z.of_nat k <= Z.of_nat n + 1 - length)%Z
                   ∧ k ≤ x < k + Z.to_nat length
                   ∧ test_exceeds vl ml length threshold k = true).
Proof.
  intros Hle Hp. unfold scan_line.
  assert (xrange (length - 1) = seq 0 (S m)) as -> by
      (unfold xrange; f_equal; subst m; lia).
  destruct (line_prime_window vl ml n Hml (S m) 0 (0%Q, 0%Z) 0)
    as (H1 & H2 & H3); [subst m; lia|].
  destruct (line_prime vl ml (seq 0 (S m)) (0%Q, 0%Z) 0) as [acc hi].
  simpl in H1, H2, H3. rewrite Hvl.
  rewrite (line_slide_flags (S n) acc 0 hi pend x); [| | | |lia|lia|done].
  - split; (intros [Hx|(Hx & k & Hk)]; [by left | right]);
      (split; [done|]); exists k; subst m; (repeat split; lia || apply Hk).
  - lia.
  - rewrite H1, window_sum_snoc. simpl. ring.
  - rewrite H2, window_count_snoc. simpl. lia.
Qed.
End SlideFlags.

(** ** What a pass flags *)


Lemma mask_line_extent ax s i :
  wf_self s → i < line_count ax (vis s) →
  List.length (line false ax (vis_mask s) i) = extent ax (vis s).
Proof.
  intros (_ & Hm & Hh & Hw) Hi.
  rewrite line_extent by (done || destruct ax; simpl in *; lia).
  by destruct ax.
Qed.

Lemma pass_flags ax s length threshold i x :
  wf_self s → (1 < length <= Z.of_nat (extent ax (vis s)))%Z →
  i < line_count ax (vis s) →
  line false ax (vis_mask (sum_threshold_pass ax length threshold s).2) i !! x
  = Some true
  ↔ line false ax (vis_mask s) i !! x = Some true
    ∨ (x < extent ax (vis s)
       ∧ ∃ k, (Z.of_nat k <= Z.of_nat (extent ax (vis s)) + 1 - length)%Z
              ∧ k ≤ x < k + Z.to_nat length
              ∧ test_exceeds (line 0%Q ax (vis s) i)
                             (line false ax (vis_mask s) i)
                             length threshold k = true).
Proof.
  intros Hwf Hl Hi. rewrite pass_line by done.
  apply scan_line_flags.
  - apply line_extent; [apply Hwf | done].
  - by apply mask_line_extent.
  - lia.
  - lia.
  - by apply mask_line_extent.
Qed.



(** ** Quiet lines *)





(** A single-sample pass on a well-formed object, whether it runs or is
    skipped for an empty axis. *)
Lemma single_pass_flagged ax s threshold :
  wf_self s →
  ∃ s', sum_threshold_pass ax 1 threshold s = (Ok tt, s')
        ∧ flagged_on (λ _ _, true) threshold s s'.
Proof.
  intros Hwf.
  destruct (decide (1 ≤ extent ax (vis s))) as [He|He].
  - destruct (single_sample_pass_ok threshold s Hwf) as (s' & H & F).
    exists s'. split; [|done]. rewrite <- H.
    destruct ax; simpl in *;
      [by apply horizontal_single_ok | by apply vertical_single_ok].
  - exists s. split.
    + apply pass_skip. lia.
    + split; [done|]. split; [apply same_but_mask_refl|].
      intros y x. destruct Hwf as (_ & Hm & Hh & Hw).
      rewrite !getitem_None; [done | done |].
      destruct ax; simpl in *; lia.
Qed.




(** ** One pass and its threshold *)

Lemma exceeds_mono sm cnt (threshold threshold' : Q) :
  (threshold <= threshold')%Q →
  exceeds sm cnt threshold' = true → exceeds sm cnt threshold = true.
Proof.
  intros Hle. unfold exceeds. rewrite !andb_true_iff, !Qgt_bool_lt.
  intros [Hc Hlt]. split; [done|]. by eapply Qle_lt_trans.
Qed.

Lemma above_mono (threshold threshold' : Q) s y x :
  (threshold <= threshold')%Q →
  above threshold' s y x = true → above threshold s y x = true.
Proof.
  intros Hle. unfold above. rewrite !Qgt_bool_lt.
  intros Hlt. by eapply Qle_lt_trans.
Qed.

Lemma pass_wf ax s length threshold :
  wf_self s →
  ∃ s', sum_threshold_pass ax length threshold s = (Ok tt, s')
        ∧ wf_self s' ∧ same_but_mask s s'.
Proof.
  intros Hwf. destruct ax; simpl;
    [by apply returns_wf_horizontal | by apply returns_wf_vertical].
Qed.

Lemma pass_threshold_mono ax s length (threshold threshold' : Q) :
  wf_self s → (threshold <= threshold')%Q →
  mask_le (vis_mask (sum_threshold_pass ax length threshold' s).2)
          (vis_mask (sum_threshold_pass ax length threshold s).2).
Proof.
  intros Hwf Hle.
  destruct (decide (Z.of_nat (extent ax (vis s)) < length ∨ length < 1)%Z)
    as [Hskip|Hrun].
  { assert (∀ t, sum_threshold_pass ax length t s = (Ok tt, s)) as Hs.
    { intros t. destruct Hskip; [by apply pass_skip|].
      destruct ax; simpl;
        [apply horizontal_skip | apply vertical_skip]; lia. }
    rewrite !Hs. reflexivity. }
  destruct (decide (length = 1%Z)) as [->|Hne].
  { destruct (single_pass_flagged ax s threshold Hwf) as (s1 & -> & _ & _ & H1).
    destruct (single_pass_flagged ax s threshold' Hwf)
      as (s2 & -> & _ & _ & H2).
    simpl. intros y x. rewrite H1, H2.
    destruct (getitem (vis_mask s) y x) as [[]|]; simpl; try done.
    intros [= Ha]. f_equal. by eapply above_mono. }
  destruct (pass_wf ax s length threshold Hwf) as (s1 & E1 & Hwf1 & Hv1 & _).
  destruct (pass_wf ax s length threshold' Hwf) as (s2 & E2 & Hwf2 & Hv2 & _).
  pose proof (pass_flags ax s length threshold) as F1.
  pose proof (pass_flags ax s length threshold') as F2.
  rewrite E1 in *. rewrite E2 in *. simpl in *.
  destruct Hwf1 as (_ & Hm1 & Hh1 & Hw1), Hwf2 as (_ & Hm2 & Hh2 & Hw2).
  rewrite Hv1 in Hh1, Hw1. rewrite Hv2 in Hh2, Hw2.
  intros y x H. apply getitem_range in H as Hr; [|done].
  destruct Hr as [Hy Hx].
  assert (∀ i j,
            i < line_count ax (vis s) →
            line false ax (vis_mask s2) i !! j = Some true →
            line false ax (vis_mask s1) i !! j = Some true) as Hline.
  { intros i j Hi Hj. apply F1; [done | lia | done |].
    apply F2 in Hj; [|done | lia | done].
    destruct Hj as [Hj|(Hj & k & Hk1 & Hk2 & Hk3)]; [by left | right].
    split; [done|]. exists k. split; [done|]. split; [done|].
    unfold test_exceeds in *. by eapply exceeds_mono. }
  destruct ax; simpl in *.
  - specialize (Hline y x). rewrite <- !getitem_row in Hline.
    apply Hline; [lia | done].
  - specialize (Hline x y).
    rewrite <- !(getitem_col false) in Hline by (done || lia).
    apply Hline; [lia | done].
Qed.

(** X3. One pass with a lower threshold flags at least what the same pass
    with a higher threshold flags, for every [length] and on either axis. *)
Theorem lower_threshold_flags_more (ax : axis) (s : SumThreshold) (length : Z)
  (threshold threshold' : Q) :
  wf_self s → (threshold <= threshold')%Q →
  mask_le (vis_mask (sum_threshold_pass ax length threshold' s).2)
          (vis_mask (sum_threshold_pass ax length threshold s).2).
Proof. apply pass_threshold_mono. Qed.

Lemma lower_threshold_flags_more_witness :
  mask_le (vis_mask (sum_threshold_pass Horizontal 2 3%Q scenario).2)
          (vis_mask (sum_threshold_pass Horizontal 2 (1 # 2)%Q scenario).2).
Proof.
  apply (lower_threshold_flags_more Horizontal scenario 2 (1 # 2)%Q 3%Q).
  - repeat split; simpl; repeat constructor.
  - unfold Qle. simpl. lia.
Defined.

(** ** Calls in sequence *)

Lemma returns_wf_run_call c : returns_wf (run_call c).
Proof.
  destruct c; simpl;
    [apply returns_wf_horizontal | apply returns_wf_vertical
     | apply returns_wf_execute_threshold].
Qed.

Lemma returns_wf_run_calls cs : returns_wf (run_calls cs).
Proof.
  induction cs as [|c cs IH]; simpl.
  - intros s Hwf. exists s. split; [done|]. split; [done|].
    apply same_but_mask_refl.
  - apply returns_wf_bind; [apply returns_wf_run_call | apply IH].
Qed.

(** X4. On a visibility array and a mask of one shape, no sequence of calls
    of the three methods raises, for any lengths and thresholds: every index
    the loops read lies inside the arrays, the window that ends past the
    line is clipped by the slice, and the loops end.  The arrays keep their
    shape. *)
Theorem calls_return_on_one_shape (cs : list call) (s : SumThreshold) :
  wf_self s →
  (run_calls cs s).1 = Ok tt
  ∧ wf_self (run_calls cs s).2
  ∧ same_shape (vis_mask (run_calls cs s).2) (vis_mask s).
Proof.
  intros Hwf.
  destruct (returns_wf_run_calls cs s Hwf) as (s' & -> & Hwf' & Hv & _).
  simpl. split; [done|]. split; [done|].
  destruct Hwf as (_ & _ & Hh & Hw), Hwf' as (_ & _ & Hh' & Hw').
  rewrite Hv in Hh', Hw'. split; congruence.
Qed.

Lemma calls_return_on_one_shape_witness :
  (run_calls [CallHorizontal 9 3%Q; CallVertical 2 5%Q;
              CallExecuteThreshold 1%Q] two_rows').1 = Ok tt
  ∧ wf_self (run_calls [CallHorizontal 9 3%Q; CallVertical 2 5%Q;
                        CallExecuteThreshold 1%Q] two_rows').2
  ∧ same_shape
      (vis_mask (run_calls [CallHorizontal 9 3%Q; CallVertical 2 5%Q;
                            CallExecuteThreshold 1%Q] two_rows').2)
      (vis_mask two_rows').
Proof.
  apply (calls_return_on_one_shape
           [CallHorizontal 9 3%Q; CallVertical 2 5%Q; CallExecuteThreshold 1%Q]
           two_rows').
  repeat split; simpl; repeat constructor.
Defined.

(** X5. No call of the three methods, on any object and whatever its
    outcome, changes the visibility array, the schedule or
    [min_connected]: the mask is all they write. *)
Theorem calls_write_the_mask_only (cs : list call) (s : SumThreshold) :
  vis (run_calls cs s).2 = vis s
  ∧ lengths (run_calls cs s).2 = lengths s
  ∧ thresholds (run_calls cs s).2 = thresholds s
  ∧ min_connected (run_calls cs s).2 = min_connected s.
Proof.
  destruct (evolves_run_calls cs s) as (? & ? & ? & ? & _). done.
Qed.

Lemma pass_nonpositive ax s length threshold :
  (length < 1)%Z → sum_threshold_pass ax length threshold s = (Ok tt, s).
Proof.
  intros Hl. destruct ax; simpl;
    [apply horizontal_skip | apply vertical_skip]; by right.
Qed.

(** X6. A pass with [length] zero or negative returns and changes nothing:
    neither branch of the method is taken. *)
Theorem nonpositive_length_is_noop (ax : axis) (s : SumThreshold) (length : Z)
  (threshold : Q) :
  (length < 1)%Z → sum_threshold_pass ax length threshold s = (Ok tt, s).
Proof. apply pass_nonpositive. Qed.

Lemma nonpositive_length_is_noop_witness :
  sum_threshold_pass Vertical (-3) 0%Q scenario = (Ok tt, scenario).
Proof.
  apply (nonpositive_length_is_noop Vertical scenario (-3) 0%Q). reflexivity.
Defined.

(** ** Single-sample passes together *)

Lemma single_pass_after_lower ax ax' s (threshold threshold' : Q) :
  wf_self s → (threshold <= threshold')%Q →
  ∃ s1, sum_threshold_pass ax 1 threshold s = (Ok tt, s1)
        ∧ sum_threshold_pass ax' 1 threshold' s1 = (Ok tt, s1).
Proof.
  intros Hwf Hle.
  destruct (single_pass_flagged ax s threshold Hwf) as (s1 & E1 & F1).
  exists s1. split; [done|].
  pose proof F1 as (Hwf1 & _ & _).
  destruct (single_pass_flagged ax' s1 threshold' Hwf1) as (s2 & E2 & F2).
  rewrite E2. f_equal. eapply flagged_on_fixed; [exact Hwf1 | | exact F2].
  intros y x Ha Hf.
  eapply (flagged_on_covered threshold s s1 F1 y x); [|done].
  by eapply above_mono.
Qed.

(** X7. After a single-sample pass, a single-sample pass on either axis with
    the same or a higher threshold returns and changes nothing; so the
    vertical pass that [execute_threshold] runs after the horizontal one for
    [length == 1] adds no flag. *)
Theorem single_sample_pass_absorbs (ax ax' : axis) (s : SumThreshold)
  (threshold threshold' : Q) :
  wf_self s → (threshold <= threshold')%Q →
  (sum_threshold_pass ax 1 threshold s).1 = Ok tt
  ∧ sum_threshold_pass ax' 1 threshold'
      (sum_threshold_pass ax 1 threshold s).2
    = (Ok tt, (sum_threshold_pass ax 1 threshold s).2).
Proof.
  intros Hwf Hle.
  destruct (single_pass_after_lower ax ax' s threshold threshold' Hwf Hle)
    as (s1 & -> & E). done.
Qed.

Lemma single_sample_pass_absorbs_witness :
  (sum_threshold_pass Horizontal 1 5%Q two_rows').1 = Ok tt
  ∧ sum_threshold_pass Vertical 1 5%Q
      (sum_threshold_pass Horizontal 1 5%Q two_rows').2
    = (Ok tt, (sum_threshold_pass Horizontal 1 5%Q two_rows').2).
Proof.
  apply (single_sample_pass_absorbs Horizontal Vertical two_rows' 5%Q 5%Q).
  - repeat split; simpl; repeat constructor.
  - unfold Qle. simpl. lia.
Defined.

Lemma single_passes_commute ax ax' s (t1 t2 : Q) :
  wf_self s →
  (sum_threshold_pass ax 1 t1 ;;; sum_threshold_pass ax' 1 t2) s
  = (sum_threshold_pass ax' 1 t2 ;;; sum_threshold_pass ax 1 t1) s.
Proof.
  intros Hwf.
  destruct (single_pass_flagged ax s t1 Hwf) as (a1 & Ea1 & Fa1).
  pose proof Fa1 as (Hwfa1 & _ & _).
  destruct (single_pass_flagged ax' a1 t2 Hwfa1) as (a2 & Ea2 & Fa2).
  destruct (single_pass_flagged ax' s t2 Hwf) as (b1 & Eb1 & Fb1).
  pose proof Fb1 as (Hwfb1 & _ & _).
  destruct (single_pass_flagged ax b1 t1 Hwfb1) as (b2 & Eb2 & Fb2).
  rewrite (bind_Ok _ _ _ _ _ Ea1), Ea2, (bind_Ok _ _ _ _ _ Eb1), Eb2.
  f_equal.
  destruct Fa1 as (_ & (Va1 & La1 & Ta1 & Ma1) & Ga1).
  destruct Fa2 as (Hwfa2 & (Va2 & La2 & Ta2 & Ma2) & Ga2).
  destruct Fb1 as (_ & (Vb1 & Lb1 & Tb1 & Mb1) & Gb1).
  destruct Fb2 as (Hwfb2 & (Vb2 & Lb2 & Tb2 & Mb2) & Gb2).
  assert (vis_mask a2 = vis_mask b2) as Hm.
  { destruct Hwfa2 as (_ & Hma & Hha & Hwa), Hwfb2 as (_ & Hmb & Hhb & Hwb).
    apply ndarray_ext; try done; try congruence.
    intros y x. rewrite Ga2, Ga1, Gb2, Gb1. unfold above.
    rewrite Va1, Vb1.
    destruct (getitem (vis_mask s) y x) as [b|]; simpl; [|done].
    f_equal.
    by destruct b, (Qgt_bool (cell 0%Q (vis s) y x) t1),
      (Qgt_bool (cell 0%Q (vis s) y x) t2). }
  destruct a2, b2. simpl in *. f_equal; congruence.
Qed.

(** X8. Two single-sample passes, on any axes and with any two thresholds,
    leave the same object in either order. *)
Theorem single_sample_passes_commute (ax ax' : axis) (s : SumThreshold)
  (t1 t2 : Q) :
  wf_self s →
  (sum_threshold_pass ax 1 t1 ;;; sum_threshold_pass ax' 1 t2) s
  = (sum_threshold_pass ax' 1 t2 ;;; sum_threshold_pass ax 1 t1) s.
Proof. apply single_passes_commute. Qed.

Lemma single_sample_passes_commute_witness :
  (sum_threshold_pass Horizontal 1 5%Q ;;; sum_threshold_pass Vertical 1 0%Q)
    two_rows'
  = (sum_threshold_pass Vertical 1 0%Q ;;; sum_threshold_pass Horizontal 1 5%Q)
      two_rows'.
Proof.
  apply (single_sample_passes_commute Horizontal Vertical two_rows' 5%Q 0%Q).
  repeat split; simpl; repeat constructor.
Defined.

(** ** The schedule *)

Lemma zip_passes_take factor ls ts s :
  zip_passes factor ls ts s
  = zip_passes factor (take (List.length ts) ls) (take (List.length ls) ts) s.
Proof.
  revert ts s. induction ls as [|l ls IH]; intros [|t ts] s; simpl; try done.
  unfold bind.
  destruct (horizontal_sum_threshold l (factor * t)%Q s) as [[[]|e] s1];
    [|done].
  destruct (vertical_sum_threshold l (factor * t)%Q s1) as [[[]|e] s2];
    [|done].
  apply IH.
Qed.

(** X9. [execute_threshold] pairs lengths and thresholds with [zip]: when
    one list is longer than the other it runs the passes of the pairs there
    are and ignores the surplus, without an error. *)
Theorem execute_threshold_ignores_surplus (factor : Q) (s : SumThreshold) :
  execute_threshold factor s
  = zip_passes factor
      (take (List.length (thresholds s)) (lengths s))
      (take (List.length (lengths s)) (thresholds s)) s.
Proof. unfold execute_threshold. apply zip_passes_take. Qed.

Lemma zip_passes_skipped factor ls ts s :
  Forall (λ l, (l < 1)%Z
               ∨ (Z.of_nat (Nat.max (height (vis s)) (width (vis s))) < l)%Z)
         ls →
  zip_passes factor ls ts s = (Ok tt, s).
Proof.
  revert ts. induction ls as [|l ls IH]; intros [|t ts] Hls; simpl; try done.
  apply Forall_cons_1 in Hls as [Hl Hls].
  rewrite (bind_Ok _ _ _ tt s) by (apply horizontal_skip; lia).
  rewrite (bind_Ok _ _ _ tt s) by (apply vertical_skip; lia).
  by apply IH.
Qed.

(** X10. A schedule whose lengths are all below 1 or above both the height
    and the width does nothing: [execute_threshold] returns and leaves the
    object as it was, whatever the thresholds and the factor. *)
Theorem execute_threshold_skips_long_schedule (factor : Q)
  (s : SumThreshold) :
  Forall (λ l, (l < 1)%Z
               ∨ (Z.of_nat (Nat.max (height (vis s)) (width (vis s))) < l)%Z)
         (lengths s) →
  execute_threshold factor s = (Ok tt, s).
Proof. intros H. unfold execute_threshold. by apply zip_passes_skipped. Qed.

Lemma execute_threshold_skips_long_schedule_witness :
  execute_threshold 1%Q
    (detector scenario_vis scenario_mask [16%Z; 0%Z; 9%Z] [1%Q; 1%Q; 1%Q])
  = (Ok tt,
     detector scenario_vis scenario_mask [16%Z; 0%Z; 9%Z] [1%Q; 1%Q; 1%Q]).
Proof.
  apply (execute_threshold_skips_long_schedule 1%Q
           (detector scenario_vis scenario_mask [16%Z; 0%Z; 9%Z]
                     [1%Q; 1%Q; 1%Q])).
  repeat constructor; simpl; lia.
Defined.

(** ** Quiet arrays *)





